(** * Online add-column DDL (ddl/column.go): a shallow embedding

    The development follows the source file function by function:
    [adjustColumnOffset], [addColumn], [onColumnAdd] and [backfillColumn].
    Go values reached through pointers are modelled by value; a pointer into
    [TableInfo.Columns] is the index of the column in that list (a
    [TableInfo] is decoded afresh from the meta store at every invocation, so
    its column and index-column pointers are pairwise distinct). *)

From Stdlib Require Import ZArith String DecimalString List Lia Bool.
From stdpp Require Import base option list gmap strings.

Local Open Scope string_scope.
Local Open Scope list_scope.
Local Open Scope Z_scope.

(** ** Go results *)

(** A Go [error] value: [None] is [nil], [Some msg] an error with message
    [msg].  [errors2.ErrorEqual] compares the causes' messages, and
    [errors.Trace] keeps the cause, so an error is identified with its
    message and [Trace] is the identity. *)
Definition error := option string.

Definition ErrorEqual (err1 err2 : error) : bool := bool_decide (err1 = err2).

(** Outcome of a Go call returning [(A, error)]: a value, an error, or a
    run-time panic. *)
Inductive Go (A : Type) : Type :=
| Val (a : A)
| Fail (e : string)
| Panic (msg : string).
Arguments Val {A} a.
Arguments Fail {A} e.
Arguments Panic {A} msg.

#[global] Instance Go_ret : MRet Go := fun A a => Val a.
#[global] Instance Go_bind : MBind Go := fun A B k m =>
  match m with
  | Val a => k a
  | Fail e => Fail e
  | Panic msg => Panic msg
  end.

(** Go's [int] is 64 bits wide on the platforms TiDB runs on. *)
Definition int_max : Z := 2 ^ 63 - 1.
Definition int_wrap (z : Z) : Z := (z + 2 ^ 63) mod 2 ^ 64 - 2 ^ 63.
Definition int_add (a b : Z) : Z := int_wrap (a + b).

(** [len(s)] as a Go [int]. *)
Definition len {A} (s : list A) : Z := Z.of_nat (length s).

(** ** Data model (package model) *)

(** [model.SchemaState] is a byte-sized enumeration; [StateUnknown] stands
    for every value outside the five named constants (the [default] arm of
    the switch in [onColumnAdd]). *)
Inductive SchemaState : Set :=
| StateNone
| StateDeleteOnly
| StateWriteOnly
| StateReorgnization
| StatePublic
| StateUnknown (b : N).

#[global] Instance SchemaState_eq_dec : EqDecision SchemaState.
Proof. solve_decision. Defined.

Inductive JobState : Set := JobNone | JobRunning | JobDone | JobCancelled.

#[global] Instance JobState_eq_dec : EqDecision JobState.
Proof. solve_decision. Defined.

Record ColumnInfo : Set := mkColumnInfo {
  c_ID : Z;
  c_Name : string;
  c_Offset : Z;
  c_TempOffset : Z;
  c_State : SchemaState;
  c_DefaultValue : Z
}.

#[global] Instance ColumnInfo_eq_dec : EqDecision ColumnInfo.
Proof. solve_decision. Defined.

Definition set_Offset (o : Z) (c : ColumnInfo) : ColumnInfo :=
  mkColumnInfo (c_ID c) (c_Name c) o (c_TempOffset c) (c_State c) (c_DefaultValue c).
Definition set_TempOffset (o : Z) (c : ColumnInfo) : ColumnInfo :=
  mkColumnInfo (c_ID c) (c_Name c) (c_Offset c) o (c_State c) (c_DefaultValue c).
Definition set_State (s : SchemaState) (c : ColumnInfo) : ColumnInfo :=
  mkColumnInfo (c_ID c) (c_Name c) (c_Offset c) (c_TempOffset c) s (c_DefaultValue c).

Record IndexColumn : Set := mkIndexColumn {
  ic_Name : string;
  ic_Offset : Z
}.

Record IndexInfo : Set := mkIndexInfo {
  idx_Name : string;
  idx_Columns : list IndexColumn
}.

Record TableInfo : Set := mkTableInfo {
  ti_ID : Z;
  ti_Columns : list ColumnInfo;
  ti_Indices : list IndexInfo
}.

Definition set_Columns (cols : list ColumnInfo) (t : TableInfo) : TableInfo :=
  mkTableInfo (ti_ID t) cols (ti_Indices t).

Record Job : Set := mkJob {
  j_SchemaID : Z;
  j_TableID : Z;
  j_RawArgs : string;
  j_State : JobState;
  j_SchemaState : SchemaState;
  j_SnapshotVer : N
}.

Definition set_jState (s : JobState) (j : Job) : Job :=
  mkJob (j_SchemaID j) (j_TableID j) (j_RawArgs j) s (j_SchemaState j) (j_SnapshotVer j).
Definition set_jSchemaState (s : SchemaState) (j : Job) : Job :=
  mkJob (j_SchemaID j) (j_TableID j) (j_RawArgs j) (j_State j) s (j_SnapshotVer j).
Definition set_jSnapshotVer (v : N) (j : Job) : Job :=
  mkJob (j_SchemaID j) (j_TableID j) (j_RawArgs j) (j_State j) (j_SchemaState j) v.

(** The statement arguments carried by the job. *)
Inductive ColumnPositionType : Set :=
| ColumnPositionNone
| ColumnPositionFirst
| ColumnPositionAfter.

Record ColumnPosition : Set := mkColumnPosition {
  Type_ : ColumnPositionType;
  RelativeColumn : string
}.

Record ColumnDef : Set := mkColumnDef {
  cd_Name : string;
  cd_Default : Z
}.

Record AlterSpecification : Set := mkAlterSpecification {
  Column : ColumnDef;
  Position : ColumnPosition
}.

(** Modelled from the spec: [findCol] (ddl.go is not part of the sources)
    locates an existing [ColumnInfo] with the target name.  The result is
    the pointer (index in the list) together with the column it points to;
    [None] is Go's [nil]. *)
Definition findCol (cols : list ColumnInfo) (name : string)
  : option (nat * ColumnInfo) :=
  list_find (fun c => c_Name c = name) cols.

(** ** Schema mutator: adjustColumnOffset *)

(** First loop: record old -> new in [offsetChanged] and move [TempOffset]
    into [Offset]. *)
Fixpoint adjustColumns (columns : list ColumnInfo) (offsetChanged : gmap Z Z)
  : list ColumnInfo * gmap Z Z :=
  match columns with
  | [] => ([], offsetChanged)
  | c :: rest =>
      let newOffset := c_TempOffset c in
      let offsetChanged := <[c_Offset c := newOffset]> offsetChanged in
      let '(rest', m) := adjustColumns rest offsetChanged in
      (set_Offset newOffset c :: rest', m)
  end.

(** Body of the inner loop over [idx.Columns]. *)
Definition adjustIndexColumn (offsetChanged : gmap Z Z) (c : IndexColumn)
  : IndexColumn :=
  match offsetChanged !! ic_Offset c with
  | Some newOffset => mkIndexColumn (ic_Name c) newOffset
  | None => c
  end.

Definition adjustIndex (offsetChanged : gmap Z Z) (idx : IndexInfo) : IndexInfo :=
  mkIndexInfo (idx_Name idx) (map (adjustIndexColumn offsetChanged) (idx_Columns idx)).

Definition adjustColumnOffset (columns : list ColumnInfo) (indices : list IndexInfo)
  : list ColumnInfo * list IndexInfo :=
  let '(columns', offsetChanged) := adjustColumns columns ∅ in
  (columns', map (adjustIndex offsetChanged) indices).

(** ** Schema mutator: addColumn *)

(** [s[:position]] followed by [s[position:]].  Go panics on [s[position:]]
    unless [0 <= position <= len(s)]; [s[:position]] alone is checked against
    the capacity, but every position it lets through beyond the length makes
    the second slice expression panic, and nothing is observable in between. *)
Definition splice {A} (s : list A) (position : Z) (x : A) : Go (list A) :=
  if (0 <=? position) && (position <=? len s) then
    Val (take (Z.to_nat position) s ++ x :: drop (Z.to_nat position) s)
  else Panic "slice bounds out of range".

(** [for i := 0; i < len(newCols); i++ { newCols[i].TempOffset = i }] *)
Definition stampTempOffset (newCols : list ColumnInfo) : list ColumnInfo :=
  imap (fun i c => set_TempOffset (Z.of_nat i) c) newCols.

Section DDL.

(** [buildColumnAndConstraint] (ddl.go) and [job.DecodeArgs] (package model)
    live outside the sources: they are parameters of the model. *)
Variable buildColumnAndConstraint : Z -> ColumnDef -> Go ColumnInfo.
Variable DecodeArgs : string -> Go AlterSpecification.

(** How the verb [%v] of [fmt] renders a [model.SchemaState]: it depends on
    the methods package model gives the type, and is a parameter as well. *)
Variable formatState : SchemaState -> string.

(** The [position] computed by the first part of [addColumn]. *)
Definition addColumn_position (cols : list ColumnInfo) (spec : AlterSpecification)
  : Go Z :=
  match Type_ (Position spec) with
  | ColumnPositionFirst => Val 0
  | ColumnPositionAfter =>
      match findCol cols (RelativeColumn (Position spec)) with
      | None => Fail (String.append "No such column: " (cd_Name (Column spec)))
      | Some (_, c) => Val (int_add (c_Offset c) 1)
      end
  | ColumnPositionNone => Val (len cols)
  end.

(** The result is the mutated [tblInfo] together with the returned
    [colInfo] pointer: its index in [tblInfo.Columns] and its value. *)
Definition addColumn (tblInfo : TableInfo) (spec : AlterSpecification)
  : Go (TableInfo * (nat * ColumnInfo)) :=
  let cols := ti_Columns tblInfo in
  position ← addColumn_position cols spec;
  col ← buildColumnAndConstraint position (Column spec);
  let colInfo := set_Offset (len cols) (set_State StateNone col) in
  newCols ← splice cols position colInfo;
  let newCols := stampTempOffset newCols in
  Val (set_Columns newCols tblInfo,
       (Z.to_nat position, set_TempOffset position colInfo)).

(** ** Job state machine: onColumnAdd *)

(** The meta store [t *meta.Meta], restricted to the table the job names. *)
Record Meta : Set := mkMeta {
  m_table : option TableInfo;
  m_schemaVer : Z
}.

(** Calls made on the collaborators, in program order. *)
Inductive Call : Set :=
| CallGetTableInfo
| CallGenSchemaVersion
| CallUpdateTable (schemaID : Z) (tblInfo : TableInfo)
| CallCurrentVersion
| CallGetTable
| CallRunReorgJob (columnInfo : ColumnInfo) (version : N).

(** What the collaborators answer during one invocation: a store error for
    each call on the meta store, the store's current version, the outcome of
    loading the table handle, and the error [d.runReorgJob] reports for the
    closure running [backfillColumn] (goroutine, channel and timer of
    reorg.go are outside the sources). *)
Record Env : Set := mkEnv {
  env_getTableInfo : error;
  env_GenSchemaVersion : error;
  env_UpdateTable : error;
  env_CurrentVersion : Go N;
  env_getTable : error;
  env_runReorgJob : error
}.

Definition errWaitReorgTimeout : error := Some "wait for reorgnization timeout".

(** Modelled from the spec: [getTableInfo] loads the [TableInfo] for the
    job's schema and table. *)
Definition getTableInfo (env : Env) (t : Meta) (job : Job) : Go TableInfo :=
  match env_getTableInfo env with
  | Some e => Fail e
  | None =>
      match m_table t with
      | Some tblInfo => Val tblInfo
      | None => Fail "table doesn't exist"
      end
  end.

(** Modelled from the spec: [Meta.GenSchemaVersion] produces a new schema
    version. *)
Definition GenSchemaVersion (env : Env) (t : Meta) : error * Meta :=
  match env_GenSchemaVersion env with
  | Some e => (Some e, t)
  | None => (None, mkMeta (m_table t) (m_schemaVer t + 1))
  end.

(** Modelled from the spec: [Meta.UpdateTable] commits the [TableInfo]. *)
Definition UpdateTable (env : Env) (t : Meta) (schemaID : Z) (tblInfo : TableInfo)
  : error * Meta :=
  match env_UpdateTable env with
  | Some e => (Some e, t)
  | None => (None, mkMeta (Some tblInfo) (m_schemaVer t))
  end.

(** [columnInfo.State = s] through the pointer [i] into [tblInfo.Columns]. *)
Definition setColumnState (i : nat) (s : SchemaState) (tblInfo : TableInfo)
  : TableInfo :=
  set_Columns (alter (set_State s) i (ti_Columns tblInfo)) tblInfo.

Inductive Outcome : Set :=
| Return (err : error)
| Panicked (msg : string).

(** Result of one invocation: what it returns, the job record and the meta
    store it leaves, and the calls it made. *)
Record Result : Set := mkResult {
  r_out : Outcome;
  r_job : Job;
  r_meta : Meta;
  r_calls : list Call
}.

(** The [switch columnInfo.State] of [onColumnAdd]. *)
Definition onColumnAdd_switch (env : Env) (t : Meta) (job : Job) (schemaID : Z)
    (tblInfo : TableInfo) (i : nat) (columnInfo : ColumnInfo) (calls : list Call)
  : Result :=
  match c_State columnInfo with
  | StateNone =>
      let job := set_jSchemaState StateDeleteOnly job in
      let tblInfo := setColumnState i StateDeleteOnly tblInfo in
      let '(err, t) := UpdateTable env t schemaID tblInfo in
      mkResult (Return err) job t (calls ++ [CallUpdateTable schemaID tblInfo])
  | StateDeleteOnly =>
      let job := set_jSchemaState StateWriteOnly job in
      let tblInfo := setColumnState i StateWriteOnly tblInfo in
      let '(err, t) := UpdateTable env t schemaID tblInfo in
      mkResult (Return err) job t (calls ++ [CallUpdateTable schemaID tblInfo])
  | StateWriteOnly =>
      let job := set_jSchemaState StateReorgnization job in
      let tblInfo := setColumnState i StateReorgnization tblInfo in
      let job := set_jSnapshotVer 0%N job in
      let '(err, t) := UpdateTable env t schemaID tblInfo in
      mkResult (Return err) job t (calls ++ [CallUpdateTable schemaID tblInfo])
  | StateReorgnization =>
      let anchored : Go (Job * list Call) :=
        if (j_SnapshotVer job =? 0)%N then
          ver ← env_CurrentVersion env;
          Val (set_jSnapshotVer ver job, calls ++ [CallCurrentVersion])
        else Val (job, calls) in
      match anchored with
      | Fail e => mkResult (Return (Some e)) job t (calls ++ [CallCurrentVersion])
      | Panic msg => mkResult (Panicked msg) job t (calls ++ [CallCurrentVersion])
      | Val (job, calls) =>
          let calls := calls ++ [CallGetTable] in
          match env_getTable env with
          | Some e => mkResult (Return (Some e)) job t calls
          | None =>
              let err := env_runReorgJob env in
              let calls := calls ++ [CallRunReorgJob columnInfo (j_SnapshotVer job)] in
              if ErrorEqual err errWaitReorgTimeout then
                mkResult (Return None) job t calls
              else
                match err with
                | Some e => mkResult (Return (Some e)) job t calls
                | None =>
                    let '(columns, indices) :=
                      adjustColumnOffset (ti_Columns tblInfo) (ti_Indices tblInfo) in
                    let tblInfo := mkTableInfo (ti_ID tblInfo) columns indices in
                    let tblInfo := setColumnState i StatePublic tblInfo in
                    let calls := calls ++ [CallUpdateTable schemaID tblInfo] in
                    match UpdateTable env t schemaID tblInfo with
                    | (Some e, t) => mkResult (Return (Some e)) job t calls
                    | (None, t) =>
                        let job := set_jSchemaState StatePublic job in
                        let job := set_jState JobDone job in
                        mkResult (Return None) job t calls
                    end
                end
          end
      end
  | _ =>
      mkResult
        (Return (Some (String.append "invalid column state "
                                     (formatState (c_State columnInfo)))))
        job t calls
  end.

Definition onColumnAdd (env : Env) (t : Meta) (job : Job) : Result :=
  let schemaID := j_SchemaID job in
  let calls := [CallGetTableInfo] in
  match getTableInfo env t job with
  | Fail e => mkResult (Return (Some e)) job t calls
  | Panic msg => mkResult (Panicked msg) job t calls
  | Val tblInfo =>
      match DecodeArgs (j_RawArgs job) with
      | Fail e => mkResult (Return (Some e)) (set_jState JobCancelled job) t calls
      | Panic msg => mkResult (Panicked msg) job t calls
      | Val spec =>
          let located : Go (TableInfo * (nat * ColumnInfo)) :=
            match findCol (ti_Columns tblInfo) (cd_Name (Column spec)) with
            | Some (i, columnInfo) =>
                if decide (c_State columnInfo = StatePublic) then
                  Fail (String.append "ADD COLUMN: column already exist "
                                      (cd_Name (Column spec)))
                else Val (tblInfo, (i, columnInfo))
            | None => addColumn tblInfo spec
            end in
          match located with
          | Fail e => mkResult (Return (Some e)) (set_jState JobCancelled job) t calls
          | Panic msg => mkResult (Panicked msg) job t calls
          | Val (tblInfo, (i, columnInfo)) =>
              let calls := calls ++ [CallGenSchemaVersion] in
              match GenSchemaVersion env t with
              | (Some e, t) => mkResult (Return (Some e)) job t calls
              | (None, t) =>
                  onColumnAdd_switch env t job schemaID tblInfo i columnInfo calls
              end
          end
      end
  end.

(** The owner re-invokes [onColumnAdd] on the same job, one answer set per
    invocation, until the job is [JobDone] or [JobCancelled] (or an
    invocation panics).  The result is the history of the invocations. *)
Fixpoint drive (envs : list Env) (t : Meta) (job : Job) : list Result :=
  match envs with
  | [] => []
  | env :: envs =>
      if decide (j_State job = JobDone \/ j_State job = JobCancelled) then []
      else
        let r := onColumnAdd env t job in
        r :: match r_out r with
             | Panicked _ => []
             | Return _ => drive envs (r_meta r) (r_job r)
             end
  end.

(** The phase of the column [name] in the persisted table: a column that has
    not been inserted yet starts at [StateNone]. *)
Definition phase_of (cols : list ColumnInfo) (name : string) : SchemaState :=
  match findCol cols name with
  | Some (_, c) => c_State c
  | None => StateNone
  end.

Definition phase (t : Meta) (name : string) : SchemaState :=
  match m_table t with
  | Some tblInfo => phase_of (ti_Columns tblInfo) name
  | None => StateNone
  end.

End DDL.

(** ** Keys, store and transactions (packages kv, table, util) *)

(** A key is the sequence of its components: the table prefix, the row
    handle and, for a column cell, the column ID.  [bytes.HasPrefix] is the
    prefix test on these sequences, and keys are ordered lexicographically. *)
Abbreviation Key := (list Z).

Fixpoint HasPrefix (s prefix : Key) : bool :=
  match prefix, s with
  | [], _ => true
  | p :: prefix, x :: s => (x =? p) && HasPrefix s prefix
  | _ :: _, [] => false
  end.

Fixpoint key_ltb (a b : Key) : bool :=
  match a, b with
  | [], [] => false
  | [], _ :: _ => true
  | _ :: _, [] => false
  | x :: a, y :: b => (x <? y) || ((x =? y) && key_ltb a b)
  end.

(** Modelled from the spec: the MVCC key codec [kv.EncodeKey] and
    [kv.DecodeKey] is order preserving and [DecodeKey] inverts [EncodeKey];
    both are the identity on component sequences. *)
Definition EncodeKey (k : Key) : Key := k.
Definition DecodeKey (k : Key) : Key := k.

(** The physical table handle of [getTable]. *)
Record Table : Set := mkTable { tb_ID : Z }.

(** Modelled from the spec: [Table.KeyPrefix], [Table.FirstKey] and
    [Table.RecordKey(handle, column?)] of package table. *)
Definition KeyPrefix (t : Table) : Key := [tb_ID t].
Definition FirstKey (t : Table) : Key := [tb_ID t].
Definition RecordKey (t : Table) (handle : Z) (col : option ColumnInfo) : Key :=
  match col with
  | None => [tb_ID t; handle]
  | Some c => [tb_ID t; handle; c_ID c]
  end.

(** Modelled from the spec: handle-from-row-key decoding of package util. *)
Definition DecodeHandleFromRowKey (key : Key) : Go Z :=
  match key with
  | _ :: handle :: _ => Val handle
  | _ => Fail "invalid row key"
  end.

(** Modelled from the spec: [util.RowKeyPrefixFilter] is true on the first
    key outside the row. *)
Definition RowKeyPrefixFilter (rowKeyPrefix : Key) (currentKey : Key) : bool :=
  negb (HasPrefix currentKey rowKeyPrefix).

Definition ErrNotExist : error := Some "Error: key not exist".
Definition IsErrNotFound (err : error) : bool := ErrorEqual err ErrNotExist.

(** The store: the live key-value pairs, and for every version the ordered
    keys an MVCC snapshot taken at that version shows. *)
Record Store : Type := mkStore {
  st_live : gmap (list Z) Z;
  st_snapshot : N -> list (list Z)
}.

(** Store errors met during one backfill, per call site. *)
Record KvFaults : Type := mkKvFaults {
  kf_GetSnapshot : error;
  kf_GetTxn : error;
  kf_Get : list Z -> error;
  kf_LockKeys : list Z -> error;
  kf_SetColValue : list Z -> error;
  kf_CommitRow : list Z -> error;
  kf_Next : list Z -> error;
  kf_Commit : error
}.

(** Operations a transaction performed, in program order. *)
Inductive Op : Set :=
| OpGet (k : list Z)
| OpLockKeys (k : list Z)
| OpSet (k : list Z) (v : Z).

#[global] Instance Op_eq_dec : EqDecision Op.
Proof. solve_decision. Defined.

Record Txn : Type := mkTxn {
  tx_view : gmap (list Z) Z;
  tx_buf : gmap (list Z) Z;
  tx_ops : list Op
}.

(** A step of a transaction: a value or the error the closure returns. *)
Inductive Res (A : Type) : Type :=
| Ok (a : A)
| Err (e : string).
Arguments Ok {A} a.
Arguments Err {A} e.

Definition TxnM (A : Type) : Type := Txn -> Res A * Txn.

Definition txn_ret {A} (a : A) : TxnM A := fun txn => (Ok a, txn).
Definition txn_fail {A} (e : string) : TxnM A := fun txn => (Err e, txn).
Definition txn_bind {A B} (m : TxnM A) (k : A -> TxnM B) : TxnM B :=
  fun txn =>
    match m txn with
    | (Ok a, txn) => k a txn
    | (Err e, txn) => (Err e, txn)
    end.

Notation "'do' x <- m ; k" := (txn_bind m (fun x => k))
  (at level 10, x name, m at level 100, k at level 200).

(** Modelled from the spec: [txn.Get] gives the value and the error it
    reports, as a pair; a missing key is reported as [ErrNotExist]. *)
Definition txn_Get (kf : KvFaults) (k : Key) : TxnM (option Z * error) :=
  fun txn =>
    let txn := mkTxn (tx_view txn) (tx_buf txn) (tx_ops txn ++ [OpGet k]) in
    match kf_Get kf k with
    | Some e => (Ok (None, Some e), txn)
    | None =>
        match (tx_buf txn ∪ tx_view txn) !! k with
        | Some v => (Ok (Some v, None), txn)
        | None => (Ok (None, ErrNotExist), txn)
        end
    end.

(** Modelled from the spec: [txn.LockKeys] locks the key or reports an
    error. *)
Definition txn_LockKeys (kf : KvFaults) (k : Key) : TxnM unit :=
  fun txn =>
    let txn := mkTxn (tx_view txn) (tx_buf txn) (tx_ops txn ++ [OpLockKeys k]) in
    match kf_LockKeys kf k with
    | Some e => (Err e, txn)
    | None => (Ok tt, txn)
    end.

(** Modelled from the spec: [Table.SetColValue(txn, key, value)] sets the
    column cell in the transaction. *)
Definition SetColValue (kf : KvFaults) (k : Key) (v : Z) : TxnM unit :=
  fun txn =>
    match kf_SetColValue kf k with
    | Some e => (Err e, txn)
    | None =>
        (Ok tt, mkTxn (tx_view txn) (<[k := v]> (tx_buf txn)) (tx_ops txn ++ [OpSet k v]))
    end.

(** Modelled from the spec: [checkRowExist] probes the row's lock key; a
    missing key is the answer [false], not an error. *)
Definition checkRowExist (kf : KvFaults) (t : Table) (handle : Z) : TxnM bool :=
  do r <- txn_Get kf (RecordKey t handle None);
  if ErrorEqual (snd r) ErrNotExist then txn_ret false
  else match snd r with
       | Some e => txn_fail e
       | None => txn_ret true
       end.

(** Modelled from the spec: [kv.RunInNewTxn(store, retryable, fn)] runs [fn]
    in a fresh transaction, commits on success and rolls back on failure.
    With [retryable] set the store may, on a conflict, roll the transaction
    back and run [fn] again in a fresh one; an attempt that is rolled back
    leaves nothing in the store, so a call that returns is described by its
    last attempt.  That attempt is what is modelled: [kf] gives the errors
    met in it, and the result carries its operations.  Whether and how often
    the store retries is not modelled. *)
Definition RunInNewTxn (kf : KvFaults) (store : Store) (retryable : bool)
    (lock : Key) (f : TxnM unit) : error * Store * list Op :=
  let txn := mkTxn (st_live store) ∅ [] in
  match f txn with
  | (Err e, txn) => (Some e, store, tx_ops txn)
  | (Ok _, txn) =>
      match kf_CommitRow kf lock with
      | Some e => (Some e, store, tx_ops txn)
      | None =>
          (None, mkStore (tx_buf txn ∪ st_live store) (st_snapshot store), tx_ops txn)
      end
  end.

(** Modelled from the spec: [snap.NewMvccIterator(start, ver)] yields the
    keys of the snapshot from the first key not below [start]. *)
Fixpoint NewMvccIterator (snap : list Key) (start : Key) : list Key :=
  match snap with
  | [] => []
  | k :: rest => if key_ltb k start then NewMvccIterator rest start else snap
  end.

(** Modelled from the spec: [kv.NextUntil] steps the iterator until [fn]
    holds or it is exhausted; an error of [it.Next] is returned. *)
Fixpoint NextUntil (kf : KvFaults) (it : list Key) (fn : Key -> bool)
  : list Key * error :=
  match it with
  | [] => ([], None)
  | k :: rest =>
      if fn k then (it, None)
      else match kf_Next kf k with
           | Some e => ([], Some e)
           | None => NextUntil kf rest fn
           end
  end.

(** ** Backfill engine: backfillColumn *)

(** The closure handed to [kv.RunInNewTxn] for one row. *)
Definition backfillRow (kf : KvFaults) (t : Table) (columnInfo : ColumnInfo)
    (handle : Z) (lock : Key) : TxnM unit :=
  do exist <- checkRowExist kf t handle;
  if negb exist then txn_ret tt
  else
    let backfillKey := RecordKey t handle (Some columnInfo) in
    do r <- txn_Get kf backfillKey;
    do _ <- match snd r with
            | Some e => if negb (IsErrNotFound (snd r)) then txn_fail e else txn_ret tt
            | None => txn_ret tt
            end;
    (* If row column doesn't exist, we need to backfill column. *)
    do _ <- txn_LockKeys kf lock;
    do _ <- SetColValue kf backfillKey (c_DefaultValue columnInfo);
    txn_ret tt.

(** One call of [kv.RunInNewTxn] in the scan: the handle, what the call
    answered and the operations of the transaction that answered. *)
Record RowTxn : Set := mkRowTxn {
  rt_handle : Z;
  rt_err : error;
  rt_ops : list Op
}.

Inductive LoopExit : Set :=
| LoopEnd
| LoopReturn (e : string)
| LoopFuel.

(** The [for it.Valid()] loop.  [fuel] bounds the number of iterations; the
    length of the iterator is always enough (see [backfillLoop_fuel]). *)
Fixpoint backfillLoop (kf : KvFaults) (t : Table) (columnInfo : ColumnInfo)
    (prefix : Key) (fuel : nat) (it : list Key) (store : Store)
    (rows : list RowTxn) : LoopExit * Store * list RowTxn :=
  match fuel with
  | O => (LoopFuel, store, rows)
  | S fuel =>
      match it with
      | [] => (LoopEnd, store, rows)
      | k :: _ =>
          let key := DecodeKey k in
          if negb (HasPrefix key prefix) then (LoopEnd, store, rows)
          else
            match DecodeHandleFromRowKey key with
            | Fail e | Panic e => (LoopReturn e, store, rows)
            | Val handle =>
                let lock := RecordKey t handle None in
                let '(err, store, ops) :=
                  RunInNewTxn kf store true lock
                    (backfillRow kf t columnInfo handle lock) in
                let rows := rows ++ [mkRowTxn handle err ops] in
                let rk := EncodeKey lock in
                let '(it, err) := NextUntil kf it (RowKeyPrefixFilter rk) in
                if ErrorEqual err ErrNotExist then (LoopEnd, store, rows)
                else match err with
                     | Some e => (LoopReturn e, store, rows)
                     | None =>
                         backfillLoop kf t columnInfo prefix fuel it store rows
                     end
            end
      end
  end.

(** The result of [backfillColumn]: [None] only if the loop ran out of fuel,
    otherwise the error returned; with it the store left behind and the
    per-row transactions in scan order. *)
Definition backfillColumn (kf : KvFaults) (store : Store) (t : Table)
    (columnInfo : ColumnInfo) (version : N)
  : option error * Store * list RowTxn :=
  match kf_GetSnapshot kf with
  | Some e => (Some (Some e), store, [])
  | None =>
      let snap := st_snapshot store version in
      let firstKey := FirstKey t in
      let prefix := KeyPrefix t in
      match kf_GetTxn kf with
      | Some e => (Some (Some e), store, [])
      | None =>
          let it := NewMvccIterator snap (EncodeKey firstKey) in
          match backfillLoop kf t columnInfo prefix (S (length it)) it store [] with
          | (LoopEnd, store, rows) => (Some (kf_Commit kf), store, rows)
          | (LoopReturn e, store, rows) => (Some (Some e), store, rows)
          | (LoopFuel, store, rows) => (None, store, rows)
          end
      end
  end.

(** ** The phase ladder *)

Definition ladder_next (s : SchemaState) : option SchemaState :=
  match s with
  | StateNone => Some StateDeleteOnly
  | StateDeleteOnly => Some StateWriteOnly
  | StateWriteOnly => Some StateReorgnization
  | StateReorgnization => Some StatePublic
  | _ => None
  end.

Definition ladder : list SchemaState :=
  [StateNone; StateDeleteOnly; StateWriteOnly; StateReorgnization; StatePublic].

(** Drop consecutive repetitions: the phases visited, each listed once. *)
Fixpoint visited (l : list SchemaState) : list SchemaState :=
  match l with
  | [] => []
  | s :: rest =>
      match rest with
      | [] => [s]
      | s' :: _ => if decide (s = s') then visited rest else s :: visited rest
      end
  end.

(** The part of the ladder still ahead of a column in phase [s]. *)
Definition ladder_from (s : SchemaState) : list SchemaState :=
  match s with
  | StateNone => ladder
  | StateDeleteOnly => [StateDeleteOnly; StateWriteOnly; StateReorgnization; StatePublic]
  | StateWriteOnly => [StateWriteOnly; StateReorgnization; StatePublic]
  | StateReorgnization => [StateReorgnization; StatePublic]
  | _ => [s]
  end.

Definition isUpdateTable (c : Call) : bool :=
  match c with CallUpdateTable _ _ => true | _ => false end.

Definition isGenSchemaVersion (c : Call) : bool :=
  match c with CallGenSchemaVersion => true | _ => false end.

Definition isWrite (o : Op) : bool :=
  match o with OpSet _ _ | OpLockKeys _ => true | OpGet _ => false end.

(** A Go slice has an [int] length. *)
Definition is_slice {A} (s : list A) : Prop := len s <= int_max.

(** The data-model invariant on offsets that [addColumn] relies on. *)
Definition offsets_in_range (cols : list ColumnInfo) : Prop :=
  Forall (fun c => 0 <= c_Offset c <= len cols - 1) cols.

(** The map [offsetChanged] after the first loop of [adjustColumnOffset]. *)
Definition recordOffsets (m : gmap Z Z) (columns : list ColumnInfo) : gmap Z Z :=
  foldl (fun m c => <[c_Offset c := c_TempOffset c]> m) m columns.

(** The column [addColumn] inserts, before its [TempOffset] is stamped. *)
Definition newColumn (cols : list ColumnInfo) (col : ColumnInfo) : ColumnInfo :=
  set_Offset (len cols) (set_State StateNone col).

(** The table [addColumn] leaves when it splices [col] at [position]. *)
Definition spliced (tblInfo : TableInfo) (position : nat) (col : ColumnInfo)
  : TableInfo :=
  let cols := ti_Columns tblInfo in
  set_Columns
    (stampTempOffset (take position cols ++ newColumn cols col :: drop position cols))
    tblInfo.

(** The lookup-or-insert step of [onColumnAdd] (the [located] value of the
    model), named for the proofs. *)
Definition locateColumn (build : Z -> ColumnDef -> Go ColumnInfo)
    (tblInfo : TableInfo) (spec : AlterSpecification)
  : Go (TableInfo * (nat * ColumnInfo)) :=
  match findCol (ti_Columns tblInfo) (cd_Name (Column spec)) with
  | Some (i, columnInfo) =>
      if decide (c_State columnInfo = StatePublic) then
        Fail (String.append "ADD COLUMN: column already exist "
                            (cd_Name (Column spec)))
      else Val (tblInfo, (i, columnInfo))
  | None => addColumn build tblInfo spec
  end.

(** Two column lists that agree on the names, position by position. *)
Definition same_names (l1 l2 : list ColumnInfo) : Prop :=
  Forall2 (fun a b => c_Name a = c_Name b) l1 l2.

(** What "the job was cancelled on validation" means for a result:
    [job.State] is [JobCancelled], an error is returned, the meta store is as
    before, and neither [GenSchemaVersion] nor [UpdateTable] was called. *)
Definition cancelled (t : Meta) (r : Result) : Prop :=
  j_State (r_job r) = JobCancelled /\
  (exists e, r_out r = Return (Some e)) /\
  r_meta r = t /\
  Forall (fun x => isGenSchemaVersion x = false /\ isUpdateTable x = false)
         (r_calls r).

(** ** Sample data *)

Module Sample.

(** A byte-sized integer type without methods is rendered in decimal. *)
Definition format (s : SchemaState) : string :=
  match s with
  | StateNone => "0"
  | StateDeleteOnly => "1"
  | StateWriteOnly => "2"
  | StateReorgnization => "3"
  | StatePublic => "4"
  | StateUnknown b => NilEmpty.string_of_uint (N.to_uint b)
  end.

Definition build (offset : Z) (colDef : ColumnDef) : Go ColumnInfo :=
  if String.eqb (cd_Name colDef) "" then Fail "empty column name"
  else Val (mkColumnInfo 3 (cd_Name colDef) offset 0 StatePublic (cd_Default colDef)).

Definition col_a := mkColumnInfo 1 "a" 0 0 StatePublic 0.
Definition col_b := mkColumnInfo 2 "b" 1 1 StatePublic 0.
Definition idx_b := mkIndexInfo "idx_b" [mkIndexColumn "b" 1].
Definition tbl_ab := mkTableInfo 1 [col_a; col_b] [idx_b].

Definition c_def := mkColumnDef "c" 5.
Definition spec_first := mkAlterSpecification c_def (mkColumnPosition ColumnPositionFirst "").
Definition spec_after_a := mkAlterSpecification c_def (mkColumnPosition ColumnPositionAfter "a").
Definition spec_after_z := mkAlterSpecification c_def (mkColumnPosition ColumnPositionAfter "z").
Definition spec_last := mkAlterSpecification c_def (mkColumnPosition ColumnPositionNone "").

Definition decode (raw : string) : Go AlterSpecification :=
  if String.eqb raw "c first" then Val spec_first
  else if String.eqb raw "c after a" then Val spec_after_a
  else if String.eqb raw "c after z" then Val spec_after_z
  else if String.eqb raw "c" then Val spec_last
  else Fail "cannot decode arguments".

(** [tbl_ab] after [ADD COLUMN c AFTER a], the column under reorganization. *)
Definition col_c := mkColumnInfo 3 "c" 2 1 StateReorgnization 5.
Definition cols_acb :=
  [col_a; col_c; mkColumnInfo 2 "b" 1 2 StatePublic 0].
Definition tbl_acb := mkTableInfo 1 cols_acb [idx_b].


Definition job0 (raw : string) := mkJob 1 1 raw JobRunning StateNone 0.
Definition meta0 := mkMeta (Some tbl_ab) 10.

Definition env_ok := mkEnv None None None (Val 77%N) None None.
Definition env_timeout := mkEnv None None None (Val 77%N) None errWaitReorgTimeout.

Definition env_backfill_fails :=
  mkEnv None None None (Val 77%N) None (Some "disk full").

(** Five invocations: three transitions, a reorganization that times out,
    and the one that completes. *)
Definition envs_run := [env_ok; env_ok; env_ok; env_timeout; env_ok].

(** The job and the meta store once the column is under reorganization with
    the snapshot anchored at version 77. *)
Definition meta_reorg := mkMeta (Some tbl_acb) 13.
Definition job_reorg := mkJob 1 1 "c after a" JobRunning StateReorgnization 77.

Definition kf_ok : KvFaults :=
  mkKvFaults None None (fun _ => None) (fun _ => None) (fun _ => None)
             (fun _ => None) (fun _ => None) None.

Definition tbl1 := mkTable 1.

(** One row, handle 7, written before column [c] existed. *)
Definition store0 : Store :=
  mkStore {[ [1; 7] := 0; [1; 7; 1] := 10; [1; 7; 2] := 20 ]}
          (fun _ => [[1; 7]; [1; 7; 1]; [1; 7; 2]]).

(** The same row after a writer that already sees column [c] stored 42 in
    its cell. *)
Definition store_written : Store :=
  mkStore {[ [1; 7] := 0; [1; 7; 1] := 10; [1; 7; 2] := 20; [1; 7; 3] := 42 ]}
          (fun _ => [[1; 7]; [1; 7; 1]; [1; 7; 2]; [1; 7; 3]]).

(** Two rows in the snapshot; row 7 has been deleted from the live store. *)
Definition store_deleted : Store :=
  mkStore {[ [1; 8] := 0; [1; 8; 1] := 11 ]}
          (fun _ => [[1; 7]; [1; 7; 1]; [1; 8]; [1; 8; 1]]).

End Sample.

(** ** Further definitions *)

(** [onColumnDrop] is a stub in the source: it returns nil and touches
    neither the job nor the meta store. *)
Definition onColumnDrop (t : Meta) (job : Job) : error * Job * Meta :=
  (None, job, t).

(** A map all of whose entries send an offset to itself. *)
Definition identity_entries (m : gmap Z Z) : Prop :=
  forall o o', m !! o = Some o' -> o' = o.

(** Where an original column sits after the splice at [p]. *)
Definition shifted (p k : nat) : nat := if decide (k < p)%nat then k else S k.

(** An invocation during which no store call fails. *)
Definition clean (env : Env) : Prop :=
  env_getTableInfo env = None /\
  env_GenSchemaVersion env = None /\
  env_UpdateTable env = None /\
  (exists ver, env_CurrentVersion env = Val ver) /\
  env_getTable env = None.

(** Every column's [TempOffset] is its index in the list. *)
Definition temp_is_index (cols : list ColumnInfo) : Prop :=
  forall k c, cols !! k = Some c -> c_TempOffset c = Z.of_nat k.

(** Every column's [Offset] is its index in the list. *)
Definition offset_is_index (cols : list ColumnInfo) : Prop :=
  forall k c, cols !! k = Some c -> c_Offset c = Z.of_nat k.

(** A backfill during which no store call fails. *)
Definition no_faults (kf : KvFaults) : Prop :=
  kf_GetSnapshot kf = None /\
  kf_GetTxn kf = None /\
  (forall k, kf_Get kf k = None) /\
  (forall k, kf_LockKeys kf k = None) /\
  (forall k, kf_SetColValue kf k = None) /\
  (forall k, kf_CommitRow kf k = None) /\
  (forall k, kf_Next kf k = None) /\
  kf_Commit kf = None.

(** The leading keys of an iterator that lie under the table prefix: the keys
    the scan of [backfillColumn] can reach. *)
Fixpoint tableRun (prefix : Key) (it : list Key) : list Key :=
  match it with
  | [] => []
  | k :: rest => if HasPrefix k prefix then k :: tableRun prefix rest else []
  end.

(** The operations of a per-row transaction that runs to its end. *)
Definition rowOps (t : Table) (columnInfo : ColumnInfo) (handle : Z) : list Op :=
  [OpGet (RecordKey t handle None);
   OpGet (RecordKey t handle (Some columnInfo));
   OpLockKeys (RecordKey t handle None);
   OpSet (RecordKey t handle (Some columnInfo)) (c_DefaultValue columnInfo)].

(** What a scan may have done when it leaves the store [store'] and the
    transactions [rows'], started from [store] and [rows]: the snapshots are
    untouched, at most [bound] transactions were added, each an initial
    segment of [rowOps], and a live key either holds what it held or is the
    column cell of a visited row, set to the default value. *)
Definition scan_frame (t : Table) (columnInfo : ColumnInfo) (store : Store)
    (rows : list RowTxn) (bound : nat) (store' : Store) (rows' : list RowTxn)
  : Prop :=
  st_snapshot store' = st_snapshot store /\
  exists new,
    rows' = rows ++ new /\
    (length new <= bound)%nat /\
    Forall (fun row => rt_ops row `prefix_of` rowOps t columnInfo (rt_handle row))
           new /\
    forall k,
      st_live store' !! k = st_live store !! k \/
      exists row, row ∈ new /\
                  k = RecordKey t (rt_handle row) (Some columnInfo) /\
                  st_live store' !! k = Some (c_DefaultValue columnInfo).

(** The key [k] is one the scan stops at for the call recorded in [row]: it
    lies under the table's prefix and carries the handle of the call. *)
Definition visited_at (t : Table) (k : Key) (row : RowTxn) : Prop :=
  HasPrefix k (KeyPrefix t) = true /\
  DecodeHandleFromRowKey k = Val (rt_handle row).

Module Cases.

(** Two columns that hold the same offset 0, and an index on that offset. *)
Definition cols_dup :=
  [mkColumnInfo 1 "a" 0 5 StatePublic 0; mkColumnInfo 2 "b" 0 7 StatePublic 0].
Definition idx_dup := mkIndexInfo "idx" [mkIndexColumn "a" 0].

(** A table whose column [c] carries a state outside the five known ones. *)
Definition tbl_odd :=
  mkTableInfo 1 [Sample.col_a; mkColumnInfo 3 "c" 1 1 (StateUnknown 9) 5] [].
Definition meta_odd := mkMeta (Some tbl_odd) 3.

(** The column in write-only state, and an environment whose [UpdateTable]
    fails. *)
Definition tbl_wo :=
  mkTableInfo 1 [Sample.col_a; mkColumnInfo 3 "c" 1 1 StateWriteOnly 5] [].
Definition meta_wo := mkMeta (Some tbl_wo) 3.
Definition env_no_update :=
  mkEnv None None (Some "commit failed") (Val 77%N) None None.

(** A store on which every [LockKeys] fails. *)
Definition kf_lock_fails : KvFaults :=
  mkKvFaults None None (fun _ => None) (fun _ => Some "lock conflict")
             (fun _ => None) (fun _ => None) (fun _ => None) None.

End Cases.

(** * Properties *)

(** ** adjustColumnOffset *)

Lemma adjustColumns_eq (columns : list ColumnInfo) (m : gmap Z Z) :
  adjustColumns columns m =
  (map (fun c => set_Offset (c_TempOffset c) c) columns, recordOffsets m columns).
Proof.
  revert m. induction columns as [|c rest IH]; intros m; simpl; [done|].
  by rewrite IH.
Qed.

Lemma recordOffsets_other (columns : list ColumnInfo) (m : gmap Z Z) (o : Z) :
  o ∉ map c_Offset columns -> recordOffsets m columns !! o = m !! o.
Proof.
  revert m. induction columns as [|c rest IH]; intros m Hnot; simpl; [done|].
  simpl in Hnot. apply not_elem_of_cons in Hnot as [Hne Hrest].
  unfold recordOffsets in *. simpl. rewrite IH by done.
  by rewrite lookup_insert_ne.
Qed.

Lemma recordOffsets_held (columns : list ColumnInfo) (m : gmap Z Z) (c : ColumnInfo) :
  NoDup (map c_Offset columns) -> c ∈ columns ->
  recordOffsets m columns !! c_Offset c = Some (c_TempOffset c).
Proof.
  revert m. induction columns as [|c0 rest IH]; intros m Hnd Hin.
  - by apply elem_of_nil in Hin.
  - simpl in Hnd. apply NoDup_cons in Hnd as [Hfresh Hnd].
    unfold recordOffsets in *. simpl.
    apply elem_of_cons in Hin as [->|Hin].
    + fold (recordOffsets (<[c_Offset c0:=c_TempOffset c0]> m) rest).
      rewrite recordOffsets_other by done. apply lookup_insert_eq.
    + by apply IH.
Qed.

Lemma adjustColumnOffset_eq (columns : list ColumnInfo) (indices : list IndexInfo) :
  adjustColumnOffset columns indices =
  (map (fun c => set_Offset (c_TempOffset c) c) columns,
   map (adjustIndex (recordOffsets ∅ columns)) indices).
Proof. unfold adjustColumnOffset. by rewrite adjustColumns_eq. Qed.

(** C5: on a column list with pairwise distinct offsets, every column's
    [Offset] becomes its [TempOffset]; every index column reference keeps its
    place and name, a reference whose old offset was held by a column now
    carries that column's new offset, and a reference to an offset held by no
    column is left as it was. *)
Theorem adjustColumnOffset_remaps (columns : list ColumnInfo) (indices : list IndexInfo) :
  NoDup (map c_Offset columns) ->
  let columns' := (adjustColumnOffset columns indices).1 in
  let indices' := (adjustColumnOffset columns indices).2 in
  columns' = map (fun c => set_Offset (c_TempOffset c) c) columns /\
  length indices' = length indices /\
  forall i idx, indices !! i = Some idx ->
    exists idx', indices' !! i = Some idx' /\
      idx_Name idx' = idx_Name idx /\
      length (idx_Columns idx') = length (idx_Columns idx) /\
      forall j r, idx_Columns idx !! j = Some r ->
        exists r', idx_Columns idx' !! j = Some r' /\
          ic_Name r' = ic_Name r /\
          (forall k c, columns !! k = Some c -> c_Offset c = ic_Offset r ->
             ic_Offset r' = c_TempOffset c /\
             exists c', columns' !! k = Some c' /\ c_Offset c' = ic_Offset r') /\
          ((forall c, c ∈ columns -> c_Offset c <> ic_Offset r) -> r' = r).
Proof.
  intros Hnd. rewrite adjustColumnOffset_eq. simpl.
  split; [done|]. split; [by rewrite length_map|].
  intros i idx Hidx.
  exists (adjustIndex (recordOffsets ∅ columns) idx).
  split; [by rewrite list_lookup_fmap, Hidx|].
  split; [done|]. split; [simpl; by rewrite length_map|].
  intros j r Hr.
  exists (adjustIndexColumn (recordOffsets ∅ columns) r).
  split; [simpl; by rewrite list_lookup_fmap, Hr|].
  split; [unfold adjustIndexColumn; by destruct (recordOffsets ∅ columns !! ic_Offset r)|].
  split.
  - intros k c Hk Hoff.
    assert (Hin : c ∈ columns) by (eapply list_elem_of_lookup_2; eauto).
    pose proof (recordOffsets_held columns ∅ c Hnd Hin) as Hheld.
    unfold adjustIndexColumn. rewrite <- Hoff, Hheld. simpl.
    split; [done|].
    exists (set_Offset (c_TempOffset c) c).
    split; [by rewrite list_lookup_fmap, Hk|done].
  - intros Hnone. unfold adjustIndexColumn.
    rewrite recordOffsets_other, lookup_empty; [done|].
    intros Hin. apply list_elem_of_fmap in Hin as (c & Heq & Hc).
    by apply (Hnone c Hc).
Qed.

(** ** addColumn *)

Lemma int_add_succ (o n : Z) :
  0 <= o <= n - 1 -> n <= int_max -> int_add o 1 = o + 1.
Proof.
  unfold int_add, int_wrap, int_max. intros Ho Hn.
  rewrite Z.mod_small; lia.
Qed.

Lemma splice_Val {A} (s : list A) (position : Z) (x : A) :
  0 <= position <= len s ->
  splice s position x =
  Val (take (Z.to_nat position) s ++ x :: drop (Z.to_nat position) s).
Proof.
  intros [H0 H1]. unfold splice.
  destruct (Z.leb_spec 0 position); [|lia].
  destruct (Z.leb_spec position (len s)); [done|lia].
Qed.

Lemma splice_inv {A} (s : list A) (position : Z) (x : A) (l : list A) :
  splice s position x = Val l ->
  0 <= position <= len s /\
  l = take (Z.to_nat position) s ++ x :: drop (Z.to_nat position) s.
Proof.
  unfold splice.
  destruct (Z.leb_spec 0 position); simpl; [|discriminate].
  destruct (Z.leb_spec position (len s)); [|discriminate].
  intros [= <-]. split; [lia|done].
Qed.

Lemma stampTempOffset_lookup (l : list ColumnInfo) (k : nat) :
  stampTempOffset l !! k = set_TempOffset (Z.of_nat k) <$> l !! k.
Proof. unfold stampTempOffset. by rewrite list_lookup_imap. Qed.

Lemma stampTempOffset_length (l : list ColumnInfo) :
  length (stampTempOffset l) = length l.
Proof. unfold stampTempOffset. apply length_imap. Qed.

Lemma findCol_Some (cols : list ColumnInfo) (name : string) (i : nat) (c : ColumnInfo) :
  findCol cols name = Some (i, c) ->
  cols !! i = Some c /\ c_Name c = name /\
  forall j y, cols !! j = Some y -> (j < i)%nat -> c_Name y <> name.
Proof. unfold findCol. intros H. by apply list_find_Some in H. Qed.

Lemma findCol_None (cols : list ColumnInfo) (name : string) :
  findCol cols name = None -> Forall (fun c => c_Name c <> name) cols.
Proof. unfold findCol. intros H. by apply list_find_None in H. Qed.

Section MutatorProofs.

Variable build : Z -> ColumnDef -> Go ColumnInfo.

Lemma addColumn_at (tblInfo : TableInfo) (spec : AlterSpecification)
    (position : Z) (col : ColumnInfo) :
  addColumn_position (ti_Columns tblInfo) spec = Val position ->
  0 <= position <= len (ti_Columns tblInfo) ->
  build position (Column spec) = Val col ->
  addColumn build tblInfo spec =
  Val (spliced tblInfo (Z.to_nat position) col,
       (Z.to_nat position,
        set_TempOffset position (newColumn (ti_Columns tblInfo) col))).
Proof.
  intros Hpos Hrange Hbuild. unfold addColumn.
  rewrite Hpos. simpl. rewrite Hbuild. simpl.
  by rewrite splice_Val.
Qed.

Lemma addColumn_inv (tblInfo tbl' : TableInfo) (spec : AlterSpecification)
    (i : nat) (c : ColumnInfo) :
  addColumn build tblInfo spec = Val (tbl', (i, c)) ->
  exists position col,
    addColumn_position (ti_Columns tblInfo) spec = Val position /\
    0 <= position <= len (ti_Columns tblInfo) /\
    build position (Column spec) = Val col /\
    i = Z.to_nat position /\
    tbl' = spliced tblInfo i col /\
    c = set_TempOffset position (newColumn (ti_Columns tblInfo) col).
Proof.
  unfold addColumn.
  destruct (addColumn_position _ _) as [position| |] eqn:Hpos; simpl; try discriminate.
  destruct (build position _) as [col| |] eqn:Hbuild; simpl; try discriminate.
  destruct (splice _ _ _) as [l| |] eqn:Hsp; simpl; try discriminate.
  intros [= <- <- <-]. apply splice_inv in Hsp as [Hrange ->].
  exists position, col. repeat split; try done; lia.
Qed.

Lemma spliced_lookup_new (tblInfo : TableInfo) (p : nat) (col : ColumnInfo) :
  (p <= length (ti_Columns tblInfo))%nat ->
  ti_Columns (spliced tblInfo p col) !! p =
  Some (set_TempOffset (Z.of_nat p) (newColumn (ti_Columns tblInfo) col)).
Proof.
  intros Hp. unfold spliced. simpl. rewrite stampTempOffset_lookup.
  rewrite list_lookup_middle; [done|]. rewrite length_take. lia.
Qed.

Lemma spliced_length (tblInfo : TableInfo) (p : nat) (col : ColumnInfo) :
  length (ti_Columns (spliced tblInfo p col)) = S (length (ti_Columns tblInfo)).
Proof.
  unfold spliced. simpl. rewrite stampTempOffset_length, length_app. simpl.
  rewrite length_take, length_drop. lia.
Qed.

Lemma spliced_TempOffset (tblInfo : TableInfo) (p : nat) (col : ColumnInfo)
    (k : nat) (ck : ColumnInfo) :
  ti_Columns (spliced tblInfo p col) !! k = Some ck -> c_TempOffset ck = Z.of_nat k.
Proof.
  unfold spliced. simpl. rewrite stampTempOffset_lookup.
  destruct (_ !! k); simpl; [|discriminate]. by intros [= <-].
Qed.

(** Taking the new column out again leaves the original columns, in their
    order, with nothing but [TempOffset] re-stamped. *)
Lemma spliced_delete (tblInfo : TableInfo) (p : nat) (col : ColumnInfo) :
  (p <= length (ti_Columns tblInfo))%nat ->
  Forall2 (fun c' c => c' = set_TempOffset (c_TempOffset c') c)
          (delete p (ti_Columns (spliced tblInfo p col))) (ti_Columns tblInfo).
Proof.
  intros Hp. apply Forall2_same_length_lookup. split.
  - rewrite length_delete; [|rewrite spliced_lookup_new; eauto].
    rewrite spliced_length. simpl. lia.
  - intros k c' c Hc' Hc. unfold spliced in Hc'. simpl in Hc'.
    destruct (decide (k < p)%nat) as [Hlt|Hge].
    + rewrite list_lookup_delete_lt, stampTempOffset_lookup in Hc' by done.
      rewrite lookup_app_l in Hc' by (rewrite length_take; lia).
      rewrite lookup_take_lt, Hc in Hc' by done.
      simpl in Hc'. by injection Hc' as <-.
    + rewrite list_lookup_delete_ge, stampTempOffset_lookup in Hc' by lia.
      rewrite lookup_app_r in Hc' by (rewrite length_take; lia).
      rewrite length_take in Hc'.
      replace (S k - p `min` length (ti_Columns tblInfo))%nat
        with (S (k - p)) in Hc' by lia.
      simpl in Hc'. rewrite lookup_drop in Hc'.
      replace (p + (k - p))%nat with k in Hc' by lia.
      rewrite Hc in Hc'. simpl in Hc'. by injection Hc' as <-.
Qed.

Lemma addColumn_position_in_bounds (cols : list ColumnInfo)
    (spec : AlterSpecification) (position : Z) :
  is_slice cols -> offsets_in_range cols ->
  addColumn_position cols spec = Val position ->
  0 <= position <= len cols.
Proof.
  intros Hslice Hrange. unfold addColumn_position.
  destruct (Type_ (Position spec)).
  - intros [= <-]. unfold len. lia.
  - intros [= <-]. unfold len. lia.
  - destruct (findCol cols _) as [[i c]|] eqn:Hfind; [|discriminate].
    intros [= <-]. apply findCol_Some in Hfind as (Hi & _ & _).
    unfold offsets_in_range in Hrange. rewrite Forall_lookup in Hrange.
    specialize (Hrange i c Hi). simpl in Hrange.
    rewrite (int_add_succ _ (len cols)) by done. lia.
Qed.

Lemma addColumn_Val_facts (tblInfo tbl' : TableInfo) (spec : AlterSpecification)
    (i : nat) (c : ColumnInfo) :
  addColumn build tblInfo spec = Val (tbl', (i, c)) ->
  c_Offset c = len (ti_Columns tblInfo) /\ c_State c = StateNone /\
  ti_Columns tbl' !! i = Some c /\
  length (ti_Columns tbl') = S (length (ti_Columns tblInfo)) /\
  (forall k ck, ti_Columns tbl' !! k = Some ck -> c_TempOffset ck = Z.of_nat k) /\
  Forall2 (fun c' c => c' = set_TempOffset (c_TempOffset c') c)
          (delete i (ti_Columns tbl')) (ti_Columns tblInfo).
Proof.
  intros H. apply addColumn_inv in H
    as (position & col & Hpos & Hrange & Hbuild & -> & -> & ->).
  assert (Hp : (Z.to_nat position <= length (ti_Columns tblInfo))%nat)
    by (unfold len in Hrange; lia).
  split; [done|]. split; [done|]. split.
  { rewrite spliced_lookup_new by done. by rewrite Z2Nat.id by lia. }
  split; [apply spliced_length|].
  split; [apply spliced_TempOffset|by apply spliced_delete].
Qed.

(** C10: when every offset of the table lies in [0 .. len(columns)-1], the
    position [addColumn] computes satisfies [0 <= position <= len(columns)],
    the slice expressions do not panic, and a list is built: for "first", for
    the default and for "after X" with X an existing column a position is
    computed, and once the column definition builds [addColumn] returns the
    list that holds the new column at the returned pointer and, around it,
    each original column once, in order: it has one element more. *)
Theorem addColumn_in_bounds (tblInfo : TableInfo) (spec : AlterSpecification) :
  let cols := ti_Columns tblInfo in
  is_slice cols -> offsets_in_range cols ->
  (Type_ (Position spec) <> ColumnPositionAfter \/
   is_Some (findCol cols (RelativeColumn (Position spec))) ->
   exists position, addColumn_position cols spec = Val position) /\
  (forall position, addColumn_position cols spec = Val position ->
     0 <= position <= len cols /\
     (forall x, splice cols position x =
        Val (take (Z.to_nat position) cols ++ x :: drop (Z.to_nat position) cols)) /\
     forall col, build position (Column spec) = Val col ->
       exists tbl' colInfo,
         addColumn build tblInfo spec = Val (tbl', (Z.to_nat position, colInfo)) /\
         length (ti_Columns tbl') = S (length cols) /\
         ti_Columns tbl' !! Z.to_nat position = Some colInfo /\
         colInfo = set_TempOffset position (newColumn cols col) /\
         Forall2 (fun c' c => c' = set_TempOffset (c_TempOffset c') c)
                 (delete (Z.to_nat position) (ti_Columns tbl')) cols) /\
  (forall msg, addColumn build tblInfo spec = Panic msg ->
     exists position, build position (Column spec) = Panic msg) /\
  (forall tbl' i colInfo, addColumn build tblInfo spec = Val (tbl', (i, colInfo)) ->
     length (ti_Columns tbl') = S (length cols) /\
     ti_Columns tbl' !! i = Some colInfo /\
     Forall2 (fun c' c => c' = set_TempOffset (c_TempOffset c') c)
             (delete i (ti_Columns tbl')) cols).
Proof.
  intros cols Hslice Hrange. split; [|split; [|split]].
  - unfold addColumn_position.
    destruct (Type_ (Position spec)); [by eauto|by eauto|].
    intros [Hne|[[i c] Hfind]]; [done|]. rewrite Hfind. by eauto.
  - intros position Hpos.
    pose proof (addColumn_position_in_bounds cols spec position Hslice Hrange Hpos)
      as Hin.
    split; [done|]. split; [intros x; by apply splice_Val|].
    intros col Hbuild.
    assert (Hp : (Z.to_nat position <= length cols)%nat)
      by (unfold len in Hin; lia).
    eexists _, _. split; [by apply addColumn_at|].
    split; [apply spliced_length|].
    split; [rewrite spliced_lookup_new by done; by rewrite Z2Nat.id by lia|].
    split; [done|]. by apply spliced_delete.
  - intros msg. unfold addColumn. fold cols.
    destruct (addColumn_position cols spec) as [position| |] eqn:Hpos; simpl.
    + pose proof (addColumn_position_in_bounds cols spec position Hslice Hrange Hpos).
      destruct (build position _) as [col| |] eqn:Hbuild; simpl; try discriminate.
      * by rewrite splice_Val.
      * intros [= <-]. eauto.
    + discriminate.
    + unfold addColumn_position in Hpos.
      destruct (Type_ (Position spec)); try discriminate.
      by destruct (findCol cols _) as [[? ?]|].
  - intros tbl' i colInfo H.
    apply addColumn_Val_facts in H as (_ & _ & Hi & Hlen & _ & Hdel). done.
Qed.


End MutatorProofs.

(** The table of the scenario [a, c, b] with offsets 0, 2, 1. *)
Lemma adjustColumnOffset_remaps_witness :
  NoDup (map c_Offset Sample.cols_acb) /\
  (adjustColumnOffset Sample.cols_acb [Sample.idx_b]).1 =
  map (fun c => set_Offset (c_TempOffset c) c) Sample.cols_acb.
Proof.
  assert (Hnd : NoDup (map c_Offset Sample.cols_acb)).
  { apply (bool_decide_unpack _). vm_compute. exact I. }
  split; [exact Hnd|].
  exact (proj1 (adjustColumnOffset_remaps Sample.cols_acb [Sample.idx_b] Hnd)).
Defined.

(** [ADD COLUMN c AFTER a] on the table [a, b]: position 1, three columns. *)
Lemma addColumn_in_bounds_witness :
  is_slice (ti_Columns Sample.tbl_ab) /\
  offsets_in_range (ti_Columns Sample.tbl_ab) /\
  addColumn_position (ti_Columns Sample.tbl_ab) Sample.spec_after_a = Val 1 /\
  exists tbl' colInfo,
    addColumn Sample.build Sample.tbl_ab Sample.spec_after_a
    = Val (tbl', (1%nat, colInfo)) /\
    length (ti_Columns tbl') = 3%nat /\
    ti_Columns tbl' !! 1%nat = Some colInfo.
Proof.
  assert (Hs : is_slice (ti_Columns Sample.tbl_ab)).
  { unfold is_slice, len, int_max. simpl. lia. }
  assert (Hr : offsets_in_range (ti_Columns Sample.tbl_ab)).
  { unfold offsets_in_range, len. simpl. repeat constructor; simpl; lia. }
  split; [exact Hs|]. split; [exact Hr|]. split; [reflexivity|].
  destruct (proj2 (proj2 (proj1 (proj2 (addColumn_in_bounds Sample.build
                                           Sample.tbl_ab Sample.spec_after_a
                                           Hs Hr)) 1 eq_refl))
              (mkColumnInfo 3 "c" 1 0 StatePublic 5) eq_refl)
    as (tbl' & colInfo & Hadd & Hlen & Hat & _).
  exists tbl', colInfo. exact (conj Hadd (conj Hlen Hat)).
Defined.



(** ** onColumnAdd *)

Lemma findCol_same_names (l1 l2 : list ColumnInfo) (name : string) (i : nat)
    (a : ColumnInfo) :
  same_names l1 l2 -> findCol l1 name = Some (i, a) ->
  exists b, l2 !! i = Some b /\ findCol l2 name = Some (i, b).
Proof.
  intros Hn Hfind. apply findCol_Some in Hfind as (Hi & Hname & Hbefore).
  destruct (Forall2_lookup_l _ _ _ _ _ Hn Hi) as (b & Hb & Hab).
  exists b. split; [done|]. unfold findCol. apply list_find_Some.
  split; [done|]. split; [congruence|].
  intros j y Hy Hlt Hy'.
  destruct (Forall2_lookup_r _ _ _ _ _ Hn Hy) as (x & Hx & Hxy).
  apply (Hbefore j x Hx Hlt). congruence.
Qed.

Lemma same_names_alter (f : ColumnInfo -> ColumnInfo) (i : nat) (l : list ColumnInfo) :
  (forall c, c_Name (f c) = c_Name c) -> same_names l (alter f i l).
Proof.
  intros Hf. apply Forall2_same_length_lookup. split.
  - by rewrite length_alter.
  - intros j a b Ha Hb. rewrite list_lookup_alter in Hb.
    case_decide; subst.
    + rewrite Ha in Hb. simpl in Hb. injection Hb as <-. by rewrite Hf.
    + congruence.
Qed.

Lemma same_names_map (f : ColumnInfo -> ColumnInfo) (l : list ColumnInfo) :
  (forall c, c_Name (f c) = c_Name c) -> same_names l (map f l).
Proof.
  intros Hf. induction l as [|c l IH]; simpl; constructor; [by rewrite Hf|done].
Qed.

Lemma phase_of_found (cols : list ColumnInfo) (name : string) (i : nat) (c : ColumnInfo) :
  findCol cols name = Some (i, c) -> phase_of cols name = c_State c.
Proof. unfold phase_of. by intros ->. Qed.

Lemma findCol_setColumnState (tblInfo : TableInfo) (name : string) (i : nat)
    (c : ColumnInfo) (s : SchemaState) :
  findCol (ti_Columns tblInfo) name = Some (i, c) ->
  findCol (ti_Columns (setColumnState i s tblInfo)) name = Some (i, set_State s c).
Proof.
  intros Hfind.
  destruct (findCol_same_names _ (alter (set_State s) i (ti_Columns tblInfo))
              name i c (same_names_alter (set_State s) i _ (fun _ => eq_refl)) Hfind)
    as (b & Hb & Hfind').
  apply findCol_Some in Hfind as (Hi & _).
  rewrite list_lookup_alter_eq, Hi in Hb. simpl in Hb. injection Hb as <-.
  exact Hfind'.
Qed.

Lemma phase_setColumnState (tblInfo : TableInfo) (name : string) (i : nat)
    (c : ColumnInfo) (s : SchemaState) :
  findCol (ti_Columns tblInfo) name = Some (i, c) ->
  phase_of (ti_Columns (setColumnState i s tblInfo)) name = s.
Proof.
  intros Hfind.
  by rewrite (phase_of_found _ _ _ _ (findCol_setColumnState _ _ _ _ s Hfind)).
Qed.

Lemma findCol_adjusted (tblInfo : TableInfo) (name : string) (i : nat) (c : ColumnInfo) :
  findCol (ti_Columns tblInfo) name = Some (i, c) ->
  findCol (adjustColumnOffset (ti_Columns tblInfo) (ti_Indices tblInfo)).1 name
  = Some (i, set_Offset (c_TempOffset c) c).
Proof.
  intros Hfind. rewrite adjustColumnOffset_eq. simpl.
  destruct (findCol_same_names _ _ name i c
              (same_names_map (fun c => set_Offset (c_TempOffset c) c) _
                 (fun _ => eq_refl)) Hfind)
    as (b & Hb & Hfind').
  apply findCol_Some in Hfind as (Hi & _).
  change (map ?f ?l) with (f <$> l) in Hb.
  rewrite list_lookup_fmap, Hi in Hb. simpl in Hb. injection Hb as <-.
  exact Hfind'.
Qed.

Section DDLProofs.

Variable build : Z -> ColumnDef -> Go ColumnInfo.
Variable decode : string -> Go AlterSpecification.
Variable format : SchemaState -> string.

(** [buildColumnAndConstraint] builds the column the definition names. *)
Hypothesis build_name :
  forall position colDef col,
    build position colDef = Val col -> c_Name col = cd_Name colDef.

Lemma findCol_spliced (tblInfo : TableInfo) (name : string) (p : nat)
    (col : ColumnInfo) :
  findCol (ti_Columns tblInfo) name = None ->
  c_Name col = name ->
  (p <= length (ti_Columns tblInfo))%nat ->
  findCol (ti_Columns (spliced tblInfo p col)) name
  = Some (p, set_TempOffset (Z.of_nat p) (newColumn (ti_Columns tblInfo) col)).
Proof.
  intros Hnone Hname Hp. apply findCol_None in Hnone.
  unfold findCol. apply list_find_Some.
  split; [by apply spliced_lookup_new|]. split; [done|].
  intros j y Hy Hlt. unfold spliced in Hy. simpl in Hy.
  rewrite stampTempOffset_lookup in Hy.
  rewrite lookup_app_l in Hy by (rewrite length_take; lia).
  rewrite lookup_take_lt in Hy by done.
  destruct (ti_Columns tblInfo !! j) as [x|] eqn:Hx; simpl in Hy; [|discriminate].
  injection Hy as <-. simpl.
  rewrite Forall_lookup in Hnone. by apply (Hnone j x).
Qed.

Lemma locateColumn_spec (tblInfo tbl' : TableInfo) (spec : AlterSpecification)
    (i : nat) (c : ColumnInfo) :
  locateColumn build tblInfo spec = Val (tbl', (i, c)) ->
  findCol (ti_Columns tbl') (cd_Name (Column spec)) = Some (i, c) /\
  c_State c = phase_of (ti_Columns tblInfo) (cd_Name (Column spec)) /\
  c_State c <> StatePublic.
Proof.
  unfold locateColumn, phase_of.
  destruct (findCol (ti_Columns tblInfo) _) as [[i0 c0]|] eqn:Hfind.
  - case_decide; [discriminate|]. by intros [= <- <- <-].
  - intros Hadd. destruct (addColumn_inv build _ _ _ _ _ Hadd)
      as (position & col & Hpos & Hrange & Hbuild & -> & -> & ->).
    apply build_name in Hbuild.
    split; [|done].
    rewrite (findCol_spliced tblInfo _ (Z.to_nat position) col); try done.
    + by rewrite Z2Nat.id by lia.
    + unfold len in Hrange. lia.
Qed.

Lemma onColumnAdd_unfold (env : Env) (t : Meta) (job : Job) :
  onColumnAdd build decode format env t job =
  match getTableInfo env t job with
  | Fail e => mkResult (Return (Some e)) job t [CallGetTableInfo]
  | Panic msg => mkResult (Panicked msg) job t [CallGetTableInfo]
  | Val tblInfo =>
      match decode (j_RawArgs job) with
      | Fail e =>
          mkResult (Return (Some e)) (set_jState JobCancelled job) t [CallGetTableInfo]
      | Panic msg => mkResult (Panicked msg) job t [CallGetTableInfo]
      | Val spec =>
          match locateColumn build tblInfo spec with
          | Fail e =>
              mkResult (Return (Some e)) (set_jState JobCancelled job) t
                       [CallGetTableInfo]
          | Panic msg => mkResult (Panicked msg) job t [CallGetTableInfo]
          | Val (tblInfo, (i, columnInfo)) =>
              match GenSchemaVersion env t with
              | (Some e, t) =>
                  mkResult (Return (Some e)) job t
                           [CallGetTableInfo; CallGenSchemaVersion]
              | (None, t) =>
                  onColumnAdd_switch format env t job (j_SchemaID job) tblInfo i columnInfo
                                     [CallGetTableInfo; CallGenSchemaVersion]
              end
          end
      end
  end.
Proof. reflexivity. Qed.

Lemma getTableInfo_Val (env : Env) (t : Meta) (job : Job) (tblInfo : TableInfo) :
  getTableInfo env t job = Val tblInfo ->
  env_getTableInfo env = None /\ m_table t = Some tblInfo.
Proof.
  unfold getTableInfo. destruct (env_getTableInfo env); [discriminate|].
  destruct (m_table t); [|discriminate]. by intros [= ->].
Qed.

Lemma GenSchemaVersion_table (env : Env) (t : Meta) :
  m_table (GenSchemaVersion env t).2 = m_table t.
Proof. unfold GenSchemaVersion. by destruct (env_GenSchemaVersion env). Qed.

(** What [onColumnAdd_switch] does to the persisted table: nothing, or one
    step up the ladder, committed by the last call of the invocation. *)
Lemma onColumnAdd_switch_step (env : Env) (t : Meta) (job : Job) (schemaID : Z)
    (tblInfo : TableInfo) (i : nat) (c : ColumnInfo) (calls : list Call)
    (name : string) :
  findCol (ti_Columns tblInfo) name = Some (i, c) ->
  Forall (fun x => isUpdateTable x = false) calls ->
  let r := onColumnAdd_switch format env t job schemaID tblInfo i c calls in
  j_RawArgs (r_job r) = j_RawArgs job /\
  j_SchemaID (r_job r) = j_SchemaID job /\
  ((r_meta r = t /\ j_State (r_job r) = j_State job) \/
   exists tbl' calls',
     m_table (r_meta r) = Some tbl' /\
     ladder_next (c_State c) = Some (phase_of (ti_Columns tbl') name) /\
     r_out r = Return None /\
     r_calls r = calls' ++ [CallUpdateTable schemaID tbl'] /\
     Forall (fun x => isUpdateTable x = false) calls' /\
     (j_State (r_job r) = j_State job /\ c_State c <> StateReorgnization \/
      j_State (r_job r) = JobDone /\ c_State c = StateReorgnization)).
Proof.
  intros Hfind Hcalls. unfold onColumnAdd_switch.
  destruct (c_State c) eqn:Hst.
  1-3: unfold UpdateTable; destruct (env_UpdateTable env); simpl;
    (split; [done|]); (split; [done|]); [by left|right];
    eexists _, calls; simpl;
    erewrite phase_setColumnState by exact Hfind;
    repeat split; try done; left; done.
  - assert (Hadj : findCol (adjustColumnOffset (ti_Columns tblInfo)
                                                (ti_Indices tblInfo)).1 name
                    = Some (i, set_Offset (c_TempOffset c) c))
      by (by apply findCol_adjusted).
    destruct (adjustColumnOffset _ _) as [columns indices]. simpl in Hadj.
    destruct (j_SnapshotVer job =? 0)%N; simpl;
      [destruct (env_CurrentVersion env) as [ver| |]; simpl;
       [|split; [done|]; split; [done|]; by left..]|].
    all: destruct (env_getTable env); simpl;
      [split; [done|]; split; [done|]; by left|].
    all: destruct (ErrorEqual _ _); simpl;
      [split; [done|]; split; [done|]; by left|].
    all: destruct (env_runReorgJob env); simpl;
      [split; [done|]; split; [done|]; by left|].
    all: unfold UpdateTable; destruct (env_UpdateTable env); simpl;
      (split; [done|]); (split; [done|]); [by left|right].
    all: eexists _, _; simpl.
    all: erewrite (phase_setColumnState (mkTableInfo _ columns indices))
      by exact Hadj.
    all: repeat split; try done.
    all: try (right; done).
    all: repeat (apply Forall_app; split); try done; by repeat constructor.
  - simpl. split; [done|]. split; [done|]. by left.
  - simpl. split; [done|]. split; [done|]. by left.
Qed.

(** One invocation either leaves the persisted table as it is, or moves the
    column one step up the ladder and returns success right after the
    [UpdateTable] that commits the step. *)
Lemma onColumnAdd_step (env : Env) (t : Meta) (job : Job) (spec : AlterSpecification) :
  decode (j_RawArgs job) = Val spec ->
  let name := cd_Name (Column spec) in
  let r := onColumnAdd build decode format env t job in
  j_RawArgs (r_job r) = j_RawArgs job /\
  j_SchemaID (r_job r) = j_SchemaID job /\
  ((m_table (r_meta r) = m_table t /\
    (j_State (r_job r) = j_State job \/ j_State (r_job r) = JobCancelled)) \/
   exists tbl' calls',
     m_table (r_meta r) = Some tbl' /\
     ladder_next (phase t name) = Some (phase (r_meta r) name) /\
     r_out r = Return None /\
     r_calls r = calls' ++ [CallUpdateTable (j_SchemaID job) tbl'] /\
     Forall (fun x => isUpdateTable x = false) calls' /\
     (j_State (r_job r) = j_State job /\ phase (r_meta r) name <> StatePublic \/
      j_State (r_job r) = JobDone /\ phase (r_meta r) name = StatePublic)).
Proof.
  intros Hdec name r. subst r. rewrite onColumnAdd_unfold.
  destruct (getTableInfo env t job) as [tblInfo| |] eqn:Hget; simpl;
    [|repeat split; left; split; [done|by left]..].
  apply getTableInfo_Val in Hget as [_ Htbl].
  rewrite Hdec.
  destruct (locateColumn build tblInfo spec) as [[tbl1 [i c]]| |] eqn:Hloc; simpl;
    [|repeat split; left; split; [done|by (left + right)]..].
  apply locateColumn_spec in Hloc as (Hfind & Hst & Hpub). fold name in Hfind, Hst.
  pose proof (GenSchemaVersion_table env t) as Hgen.
  destruct (GenSchemaVersion env t) as [[e|] t1]; simpl in *;
    [repeat split; left; split; [done|by left]|].
  pose proof (onColumnAdd_switch_step env t1 job (j_SchemaID job) tbl1 i c
                [CallGetTableInfo; CallGenSchemaVersion] name Hfind
                ltac:(by repeat constructor)) as (Hraw & Hsid & Hcase).
  split; [done|]. split; [done|].
  destruct Hcase as [[-> Hjs]|(tbl' & calls' & Hm & Hnext & Hout & Hcalls & Hno & Hdone)].
  - left. split; [done|by left].
  - right. exists tbl', calls'. unfold phase at 1 2 3 4. rewrite Hm, Htbl, <- Hst.
    repeat split; try done.
    destruct Hdone as [[Hjs Hne]|[Hjs He]]; [left|right]; split; try done.
    + intros Hp. rewrite Hp in Hnext. by destruct (c_State c).
    + rewrite He in Hnext. simpl in Hnext. by injection Hnext as <-.
Qed.

Lemma onColumnAdd_one_UpdateTable (env : Env) (t : Meta) (job : Job) :
  (length (List.filter isUpdateTable (r_calls (onColumnAdd build decode format env t job)))
   <= 1)%nat.
Proof.
  rewrite onColumnAdd_unfold.
  unfold onColumnAdd_switch, GenSchemaVersion, UpdateTable.
  destruct (env_CurrentVersion env); simpl;
    repeat (case_match; simplify_eq/=); simpl; lia.
Qed.

Lemma ladder_from_next (s s' : SchemaState) :
  ladder_next s = Some s' -> s <> s' /\ s :: ladder_from s' = ladder_from s.
Proof. destruct s; simpl; intros [= <-]; by split. Qed.

Lemma visited_cons (s s' : SchemaState) (l : list SchemaState) :
  visited (s :: s' :: l) = if decide (s = s') then visited (s' :: l)
                           else s :: visited (s' :: l).
Proof. reflexivity. Qed.

Lemma phase_same_table (t t' : Meta) (name : string) :
  m_table t' = m_table t -> phase t' name = phase t name.
Proof. unfold phase. by intros ->. Qed.

(** C1: along the invocations of one add-column job, every invocation either
    leaves the column's persisted phase where it was or moves it exactly one
    step along None, DeleteOnly, WriteOnly, Reorganization, Public; a step is
    committed by the one [UpdateTable] call of the invocation, made last,
    before success is returned; and a run that ends with the job done has
    visited the whole ladder ahead of its starting phase, in order. *)
Theorem onColumnAdd_phase_ladder (spec : AlterSpecification) (envs : list Env)
    (t : Meta) (job : Job) :
  decode (j_RawArgs job) = Val spec ->
  let name := cd_Name (Column spec) in
  let hist := drive build decode format envs t job in
  let phases := phase t name :: map (fun r => phase (r_meta r) name) hist in
  (forall k r s s',
     hist !! k = Some r -> phases !! k = Some s -> phases !! S k = Some s' ->
     (length (List.filter isUpdateTable (r_calls r)) <= 1)%nat /\
     (s' = s \/
      ladder_next s = Some s' /\ r_out r = Return None /\
      exists tbl' calls',
        m_table (r_meta r) = Some tbl' /\
        r_calls r = calls' ++ [CallUpdateTable (j_SchemaID job) tbl'] /\
        Forall (fun x => isUpdateTable x = false) calls')) /\
  (forall r, last hist = Some r -> j_State (r_job r) = JobDone ->
     visited phases = ladder_from (phase t name)).
Proof.
  intros Hdec name. simpl. revert t job Hdec.
  induction envs as [|env envs' IH]; intros t job Hdec; simpl.
  { split; [intros k r s s' Hk; by rewrite lookup_nil in Hk|discriminate]. }
  case_decide as Hstop.
  { split; [intros k r s s' Hk; by rewrite lookup_nil in Hk|discriminate]. }
  pose proof (onColumnAdd_step env t job spec Hdec) as (Hraw & Hsid & Hstep).
  pose proof (onColumnAdd_one_UpdateTable env t job) as Hone.
  fold name in Hstep.
  set (r0 := onColumnAdd build decode format env t job) in *.
  rewrite <- Hraw in Hdec.
  specialize (IH (r_meta r0) (r_job r0) Hdec) as [IHwalk IHdone].
  rewrite Hsid in IHwalk.
  set (rest := match r_out r0 with
               | Return _ => drive build decode format envs' (r_meta r0) (r_job r0)
               | Panicked _ => []
               end).
  assert (Hrest : rest = [] \/ rest = drive build decode format envs' (r_meta r0) (r_job r0))
    by (subst rest; destruct (r_out r0); auto).
  assert (Hfirst : phase (r_meta r0) name = phase t name \/
                   ladder_next (phase t name) = Some (phase (r_meta r0) name)).
  { destruct Hstep as [[Hm _]|(? & ? & _ & Hn & _)]; [left|by right].
    by apply phase_same_table. }
  split.
  - intros [|k] r s s' Hr Hs Hs'; simpl in *.
    + injection Hr as <-. injection Hs as <-. injection Hs' as <-.
      split; [done|].
      destruct Hstep as [[Hm _]|(tbl' & calls' & Hm & Hn & Hout & Hcalls & Hno & _)].
      * left. by apply phase_same_table.
      * right. split; [done|]. split; [done|]. by exists tbl', calls'.
    + destruct Hrest as [Hnil|Heq]; rewrite ?Hnil in *; [done|].
      rewrite Heq in Hr, Hs, Hs'. by apply (IHwalk k).
  - intros r Hlast Hdone.
    destruct rest as [|r1 rest'] eqn:Hrest'.
    + simpl in Hlast. injection Hlast as <-. simpl.
      destruct Hstep as [[_ [Hjs|Hjs]]|(? & ? & _ & Hn & _ & _ & _ & [[Hjs _]|[_ Hp]])].
      * exfalso. apply Hstop. left. congruence.
      * congruence.
      * exfalso. apply Hstop. left. congruence.
      * rewrite Hp in *. destruct (phase t name); try discriminate. done.
    + destruct Hrest as [|Heq]; [done|].
      assert (Hl : last (drive build decode format envs' (r_meta r0) (r_job r0)) = Some r).
      { rewrite <- Heq. simpl in Hlast. destruct rest'; exact Hlast. }
      specialize (IHdone r Hl Hdone). rewrite <- Heq in IHdone.
      change (visited (phase t name :: phase (r_meta r0) name ::
                        map (fun r => phase (r_meta r) name) (r1 :: rest'))
              = ladder_from (phase t name)).
      rewrite visited_cons.
      destruct Hfirst as [Hsame|Hnext].
      * rewrite <- Hsame. rewrite decide_True by done. exact IHdone.
      * apply ladder_from_next in Hnext as [Hne <-].
        rewrite decide_False by done. f_equal. exact IHdone.
Qed.

(** An invocation on a column that is already in the table and not yet
    public: a store error on the way in, or the switch on that column. *)
Lemma onColumnAdd_in_phase (env : Env) (t : Meta) (job : Job)
    (spec : AlterSpecification) :
  decode (j_RawArgs job) = Val spec ->
  let name := cd_Name (Column spec) in
  phase t name <> StateNone -> phase t name <> StatePublic ->
  exists tblInfo i c,
    m_table t = Some tblInfo /\
    findCol (ti_Columns tblInfo) name = Some (i, c) /\
    c_State c = phase t name /\
    onColumnAdd build decode format env t job =
    match env_getTableInfo env with
    | Some e => mkResult (Return (Some e)) job t [CallGetTableInfo]
    | None =>
        match env_GenSchemaVersion env with
        | Some e =>
            mkResult (Return (Some e)) job t [CallGetTableInfo; CallGenSchemaVersion]
        | None =>
            onColumnAdd_switch format env (mkMeta (m_table t) (m_schemaVer t + 1)) job
              (j_SchemaID job) tblInfo i c [CallGetTableInfo; CallGenSchemaVersion]
        end
    end.
Proof.
  intros Hdec name Hnone Hpub. subst name. unfold phase in *.
  destruct (m_table t) as [tblInfo|] eqn:Htbl; [|done].
  unfold phase_of in *.
  destruct (findCol (ti_Columns tblInfo) _) as [[i c]|] eqn:Hfind; [|done].
  exists tblInfo, i, c. split; [done|]. split; [done|]. split; [done|].
  rewrite onColumnAdd_unfold. unfold getTableInfo, GenSchemaVersion.
  destruct (env_getTableInfo env); [done|].
  rewrite Htbl, Hdec. unfold locateColumn. rewrite Hfind.
  rewrite decide_False by done.
  by destruct (env_GenSchemaVersion env).
Qed.

(** The snapshot version across one invocation. *)
Lemma snapshotVer_step (spec : AlterSpecification) (env : Env)
    (t : Meta) (job : Job) :
  decode (j_RawArgs job) = Val spec ->
  let name := cd_Name (Column spec) in
  let r := onColumnAdd build decode format env t job in
  (phase t name = StateWriteOnly ->
   phase (r_meta r) name = StateReorgnization ->
   j_SnapshotVer (r_job r) = 0%N) /\
  (phase t name = StateReorgnization ->
   (In CallCurrentVersion (r_calls r) -> j_SnapshotVer job = 0%N) /\
   (j_SnapshotVer job = 0%N ->
    env_getTableInfo env = None -> env_GenSchemaVersion env = None ->
    In CallCurrentVersion (r_calls r) /\
    forall ver, env_CurrentVersion env = Val ver -> j_SnapshotVer (r_job r) = ver) /\
   (j_SnapshotVer job <> 0%N ->
    j_SnapshotVer (r_job r) = j_SnapshotVer job) /\
   (forall c v, In (CallRunReorgJob c v) (r_calls r) ->
    v = j_SnapshotVer (r_job r))).
Proof.
  intros Hdec name r. split.
  - intros Hw Hre.
    destruct (onColumnAdd_in_phase env t job spec Hdec)
      as (tblInfo & i & c & Htbl & Hfind & Hst & Hr);
      fold name; rewrite ?Hw; try done.
    fold name in Hst. rewrite Hw in Hst.
    fold r in Hr. rewrite Hr in Hre |- *. unfold phase in Hw. rewrite Htbl in Hw.
    destruct (env_getTableInfo env);
      [unfold phase in Hre; simpl in Hre; rewrite Htbl in Hre; congruence|].
    destruct (env_GenSchemaVersion env);
      [unfold phase in Hre; simpl in Hre; rewrite Htbl in Hre; congruence|].
    unfold onColumnAdd_switch. rewrite Hst.
    unfold UpdateTable. by destruct (env_UpdateTable env).
  - intros Hre.
    destruct (onColumnAdd_in_phase env t job spec Hdec)
      as (tblInfo & i & c & Htbl & Hfind & Hst & Hr);
      fold name; rewrite ?Hre; try done.
    fold name in Hst. rewrite Hre in Hst.
    fold r in Hr. rewrite Hr. clear Hr r.
    destruct (env_getTableInfo env);
      [simpl; repeat split; try done; intuition discriminate|].
    destruct (env_GenSchemaVersion env);
      [simpl; repeat split; try done; intuition discriminate|].
    unfold onColumnAdd_switch. rewrite Hst.
    destruct (j_SnapshotVer job =? 0)%N eqn:Hz;
      [apply N.eqb_eq in Hz|apply N.eqb_neq in Hz].
    all: destruct (env_CurrentVersion env) as [ver| |] eqn:Hcur; simpl.
    all: unfold UpdateTable.
    all: destruct (env_getTable env); simpl.
    all: try destruct (ErrorEqual _ _); simpl.
    all: try destruct (env_runReorgJob env); simpl.
    all: try destruct (adjustColumnOffset _ _); simpl.
    all: try destruct (env_UpdateTable env); simpl.
    all: repeat split; try done; try congruence.
    all: intros; simpl in *; intuition (try discriminate; try congruence).
Qed.

(** C3: the WriteOnly -> Reorganization transition leaves
    [job.SnapshotVer = 0].  In the Reorganization state the store's current
    version is read only when [job.SnapshotVer] is 0, and is then stored in
    the job; a non-zero [job.SnapshotVer] is never overwritten; whenever the
    backfill is run, it is run on the version anchored in the job.  So once a
    version is anchored, every later invocation of the reorganization keeps
    it, reads no newer version and runs the backfill on it. *)
Theorem snapshotVer_anchored_once (spec : AlterSpecification) (t : Meta) (job : Job) :
  decode (j_RawArgs job) = Val spec ->
  let name := cd_Name (Column spec) in
  (forall env,
     let r := onColumnAdd build decode format env t job in
     (phase t name = StateWriteOnly ->
      phase (r_meta r) name = StateReorgnization ->
      j_SnapshotVer (r_job r) = 0%N) /\
     (phase t name = StateReorgnization ->
      (In CallCurrentVersion (r_calls r) -> j_SnapshotVer job = 0%N) /\
      (j_SnapshotVer job = 0%N ->
       env_getTableInfo env = None -> env_GenSchemaVersion env = None ->
       In CallCurrentVersion (r_calls r) /\
       forall ver, env_CurrentVersion env = Val ver ->
                   j_SnapshotVer (r_job r) = ver) /\
      (j_SnapshotVer job <> 0%N -> j_SnapshotVer (r_job r) = j_SnapshotVer job) /\
      (forall c v, In (CallRunReorgJob c v) (r_calls r) ->
                   v = j_SnapshotVer (r_job r)))) /\
  (forall envs k r,
     phase t name = StateReorgnization -> j_SnapshotVer job <> 0%N ->
     drive build decode format envs t job !! k = Some r ->
     j_SnapshotVer (r_job r) = j_SnapshotVer job /\
     ~ In CallCurrentVersion (r_calls r) /\
     forall c v, In (CallRunReorgJob c v) (r_calls r) -> v = j_SnapshotVer job).
Proof.
  intros Hdec name. split.
  { intros env. by apply snapshotVer_step. }
  intros envs. revert t job Hdec.
  induction envs as [|env envs' IH]; intros t job Hdec k r Hre Hver Hk; simpl in Hk.
  { by rewrite lookup_nil in Hk. }
  case_decide as Hstop; [by rewrite lookup_nil in Hk|].
  pose proof (snapshotVer_step spec env t job Hdec) as [_ Hstep].
  pose proof (onColumnAdd_step env t job spec Hdec) as (Hraw & _ & Hphase).
  fold name in Hstep, Hphase.
  specialize (Hstep Hre) as (Hread & _ & Hkeep & Hrun).
  specialize (Hkeep Hver).
  set (r0 := onColumnAdd build decode format env t job) in *.
  destruct k as [|k]; simpl in Hk.
  - injection Hk as <-. split; [done|]. split.
    + intros Hin. by apply Hver, Hread.
    + intros c v Hin. rewrite (Hrun c v Hin). done.
  - destruct (r_out r0); [|by rewrite lookup_nil in Hk].
    rewrite <- Hkeep.
    destruct Hphase as [[Hm _]|(? & ? & _ & Hn & _ & _ & _ & [[_ Hne]|[Hjs _]])].
    + apply (IH (r_meta r0) (r_job r0) ltac:(congruence) k r); try congruence.
      by rewrite (phase_same_table t).
    + rewrite Hre in Hn. simpl in Hn. injection Hn as Hn. by rewrite <- Hn in Hne.
    + destruct envs'; simpl in Hk; [by rewrite lookup_nil in Hk|].
      rewrite decide_True in Hk by (by left). by rewrite lookup_nil in Hk.
Qed.

Ltac reorg_arm env job Hst :=
  unfold onColumnAdd_switch, UpdateTable; rewrite Hst;
  destruct (j_SnapshotVer job =? 0)%N; simpl;
  try (destruct (env_CurrentVersion env) as [?| |]; simpl);
  try (destruct (env_getTable env) eqn:?; simpl);
  try (destruct (ErrorEqual (env_runReorgJob env) errWaitReorgTimeout) eqn:?; simpl);
  try (destruct (env_runReorgJob env) eqn:?; simpl);
  try (match goal with
       | |- context [adjustColumnOffset ?a ?b] =>
           destruct (adjustColumnOffset a b); simpl
       end);
  try (destruct (env_UpdateTable env) eqn:?; simpl).

(** C7: in the Reorganization state, when the reorg runner was run and
    reports the timeout error, the invocation returns nil, the column stays
    in Reorganization, the persisted table, [job.State] and
    [job.SchemaState] are unchanged and [UpdateTable] is not called; any
    other error of the runner is the error the invocation returns. *)
Theorem reorg_timeout_no_transition (spec : AlterSpecification) (env : Env)
    (t : Meta) (job : Job) (c : ColumnInfo) (v : N) :
  decode (j_RawArgs job) = Val spec ->
  let name := cd_Name (Column spec) in
  let r := onColumnAdd build decode format env t job in
  phase t name = StateReorgnization ->
  In (CallRunReorgJob c v) (r_calls r) ->
  (env_runReorgJob env = errWaitReorgTimeout ->
   r_out r = Return None /\
   phase (r_meta r) name = StateReorgnization /\
   m_table (r_meta r) = m_table t /\
   j_State (r_job r) = j_State job /\
   j_SchemaState (r_job r) = j_SchemaState job /\
   Forall (fun x => isUpdateTable x = false) (r_calls r)) /\
  (forall e, env_runReorgJob env = Some e -> Some e <> errWaitReorgTimeout ->
   r_out r = Return (Some e) /\
   phase (r_meta r) name = StateReorgnization /\
   m_table (r_meta r) = m_table t /\
   j_State (r_job r) = j_State job /\
   j_SchemaState (r_job r) = j_SchemaState job /\
   Forall (fun x => isUpdateTable x = false) (r_calls r)).
Proof.
  intros Hdec name r Hre.
  destruct (onColumnAdd_in_phase env t job spec Hdec)
    as (tblInfo & i & c0 & Htbl & Hfind & Hst & Hr);
    fold name; rewrite ?Hre; try done.
  fold name in Hst. rewrite Hre in Hst. fold r in Hr.
  rewrite Hr. clear Hr r.
  destruct (env_getTableInfo env); [simpl; intuition discriminate|].
  destruct (env_GenSchemaVersion env); [simpl; intuition discriminate|].
  reorg_arm env job Hst.
  all: intros Hin; try (simpl in Hin; intuition discriminate).
  all: split; [intros Htime|intros err He Hne].
  all: try (rewrite Htime in *; simplify_eq/=).
  all: try (apply bool_decide_eq_true in Heqb; congruence).
  all: try (apply bool_decide_eq_false in Heqb; congruence).
  all: simplify_eq/=.
  all: split; [done|]; split; [exact Hre|]; repeat split; try done;
    by repeat constructor.
Qed.

(** C9: on the Reorganization -> Public path, an error from loading the
    table, from the backfill or from the [UpdateTable] of the public schema is
    the error of the invocation and leaves [job.State] (and the persisted
    table) as before; the job becomes [JobDone], with [SchemaState] public,
    only in an invocation whose last call is the successful [UpdateTable] that
    persists the column as public. *)
Theorem job_done_after_commit (spec : AlterSpecification) (env : Env)
    (t : Meta) (job : Job) :
  decode (j_RawArgs job) = Val spec ->
  let name := cd_Name (Column spec) in
  let r := onColumnAdd build decode format env t job in
  phase t name = StateReorgnization ->
  (forall e, env_getTableInfo env = Some e ->
   r_out r = Return (Some e) /\ r_job r = job /\ r_meta r = t) /\
  (forall e, In CallGetTable (r_calls r) -> env_getTable env = Some e ->
   r_out r = Return (Some e) /\ j_State (r_job r) = j_State job /\
   j_SchemaState (r_job r) = j_SchemaState job /\
   m_table (r_meta r) = m_table t) /\
  (forall e c v, In (CallRunReorgJob c v) (r_calls r) ->
   env_runReorgJob env = Some e -> Some e <> errWaitReorgTimeout ->
   r_out r = Return (Some e) /\ j_State (r_job r) = j_State job /\
   j_SchemaState (r_job r) = j_SchemaState job /\
   m_table (r_meta r) = m_table t) /\
  (forall e schemaID tbl, In (CallUpdateTable schemaID tbl) (r_calls r) ->
   env_UpdateTable env = Some e ->
   r_out r = Return (Some e) /\ j_State (r_job r) = j_State job /\
   j_SchemaState (r_job r) = j_SchemaState job /\
   m_table (r_meta r) = m_table t) /\
  (j_State (r_job r) = JobDone -> j_State job <> JobDone ->
   env_UpdateTable env = None /\
   r_out r = Return None /\
   j_SchemaState (r_job r) = StatePublic /\
   phase (r_meta r) name = StatePublic /\
   exists tbl calls',
     m_table (r_meta r) = Some tbl /\
     r_calls r = calls' ++ [CallUpdateTable (j_SchemaID job) tbl]).
Proof.
  intros Hdec name r Hre.
  pose proof (onColumnAdd_step env t job spec Hdec) as (_ & _ & Hstep).
  fold name r in Hstep.
  destruct (onColumnAdd_in_phase env t job spec Hdec)
    as (tblInfo & i & c0 & Htbl & Hfind & Hst & Hr);
    fold name; rewrite ?Hre; try done.
  fold name in Hst. rewrite Hre in Hst. fold r in Hr.
  assert (Hdone : j_State (r_job r) = JobDone -> j_State job <> JobDone ->
                  r_out r = Return None /\ phase (r_meta r) name = StatePublic /\
                  exists tbl calls',
                    m_table (r_meta r) = Some tbl /\
                    r_calls r = calls' ++ [CallUpdateTable (j_SchemaID job) tbl]).
  { intros Hd Hnd.
    destruct Hstep as [[_ [Hjs|Hjs]]|(tbl' & calls' & Hm & _ & Hout & Hcalls & _ & Hj)];
      [congruence..|].
    destruct Hj as [[Hjs _]|[_ Hp]]; [congruence|]. eauto 10. }
  clear Hstep. revert Hdone. rewrite Hr. clear Hr r.
  destruct (env_getTableInfo env) eqn:Hg;
    [simpl; intros Hdone; repeat split; try done; try congruence;
     intros; simpl in *; intuition (try discriminate; congruence)|].
  destruct (env_GenSchemaVersion env);
    [simpl; intros Hdone; repeat split; try done; try congruence;
     intros; simpl in *; intuition (try discriminate; congruence)|].
  reorg_arm env job Hst.
  all: intros Hdone; repeat split; try done; try congruence.
  all: try (intros; simpl in *; intuition (try discriminate; congruence)).
  all: try (intros; apply bool_decide_eq_true in Heqb; congruence).
  all: try (intros Hd Hnd; by destruct (Hdone Hd Hnd) as (? & ? & ?)).
Qed.

(** C6: once the table is loaded, each validation failure (the arguments
    do not decode; the target column is already public; the column is to be
    inserted "after X" and no column X exists; more generally [addColumn]
    fails) sets [job.State] to [JobCancelled] and returns an error, with no
    call of [GenSchemaVersion] or [UpdateTable] and the meta store
    untouched. *)
Theorem validation_failure_cancels (env : Env) (t : Meta) (job : Job)
    (tblInfo : TableInfo) :
  env_getTableInfo env = None -> m_table t = Some tblInfo ->
  let r := onColumnAdd build decode format env t job in
  (forall e, decode (j_RawArgs job) = Fail e ->
   cancelled t r /\ r_out r = Return (Some e)) /\
  (forall spec, decode (j_RawArgs job) = Val spec ->
   let name := cd_Name (Column spec) in
   (forall i c, findCol (ti_Columns tblInfo) name = Some (i, c) ->
    c_State c = StatePublic -> cancelled t r) /\
   (findCol (ti_Columns tblInfo) name = None ->
    Type_ (Position spec) = ColumnPositionAfter ->
    findCol (ti_Columns tblInfo) (RelativeColumn (Position spec)) = None ->
    cancelled t r) /\
   (findCol (ti_Columns tblInfo) name = None ->
    forall e, addColumn build tblInfo spec = Fail e ->
    cancelled t r /\ r_out r = Return (Some e))).
Proof.
  intros Hget Htbl r. subst r. rewrite onColumnAdd_unfold.
  unfold getTableInfo. rewrite Hget, Htbl.
  assert (Hcalls : Forall (fun x => isGenSchemaVersion x = false /\
                                    isUpdateTable x = false) [CallGetTableInfo])
    by (by repeat constructor).
  split.
  - intros e ->. unfold cancelled. simpl. eauto 10.
  - intros spec Hdec. rewrite Hdec. unfold locateColumn. cbv zeta.
    split; [|split].
    + intros i c -> Hpub. rewrite decide_True by done.
      unfold cancelled. simpl. eauto 10.
    + intros -> Hty Hx. unfold addColumn, addColumn_position.
      rewrite Hty, Hx. simpl. unfold cancelled. simpl. eauto 10.
    + intros -> e ->. unfold cancelled. simpl. eauto 10.
Qed.

End DDLProofs.

(** ** backfillColumn *)

Lemma NextUntil_length (kf : KvFaults) (it : list Key) (fn : Key -> bool) :
  (length (NextUntil kf it fn).1 <= length it)%nat.
Proof.
  induction it as [|k rest IH]; simpl; [done|].
  destruct (fn k); simpl; [done|].
  destruct (kf_Next kf k); simpl; lia.
Qed.

Lemma NextUntil_skips (kf : KvFaults) (k : Key) (rest : list Key) (fn : Key -> bool) :
  fn k = false -> (length (NextUntil kf (k :: rest) fn).1 <= length rest)%nat.
Proof.
  intros Hk. simpl. rewrite Hk.
  destruct (kf_Next kf k); simpl; [lia|apply NextUntil_length].
Qed.

(** A key of the table whose handle decodes lies in the row of that handle. *)
Lemma RowKeyPrefixFilter_own_row (t : Table) (k : Key) (handle : Z) :
  HasPrefix k (KeyPrefix t) = true ->
  DecodeHandleFromRowKey k = Val handle ->
  RowKeyPrefixFilter (RecordKey t handle None) k = false.
Proof.
  unfold RowKeyPrefixFilter, KeyPrefix, RecordKey, DecodeHandleFromRowKey.
  destruct k as [|x [|h rest]]; simpl; try discriminate.
  intros Hx [= ->]. rewrite andb_true_r in Hx.
  rewrite Hx, Z.eqb_refl. by destruct rest.
Qed.

(** The iterator's length is fuel enough: the loop never stops for lack of
    fuel. *)
Lemma backfillLoop_fuel (kf : KvFaults) (t : Table) (columnInfo : ColumnInfo)
    (fuel : nat) (it : list Key) (store : Store) (rows : list RowTxn) :
  (length it < fuel)%nat ->
  (backfillLoop kf t columnInfo (KeyPrefix t) fuel it store rows).1.1 <> LoopFuel.
Proof.
  revert it store rows.
  induction fuel as [|fuel IH]; intros it store rows Hlen; [lia|].
  destruct it as [|k rest]; [done|].
  cbn [backfillLoop]. unfold DecodeKey, EncodeKey.
  destruct (HasPrefix k (KeyPrefix t)) eqn:Hpre; [|done].
  cbn [negb].
  destruct (DecodeHandleFromRowKey k) as [handle| |] eqn:Hh; [|done..].
  destruct (RunInNewTxn _ _ _ _ _) as [[err store'] ops].
  pose proof (NextUntil_skips kf k rest
                (RowKeyPrefixFilter (RecordKey t handle None))
                (RowKeyPrefixFilter_own_row t k handle Hpre Hh)) as Hskip.
  destruct (NextUntil kf (k :: rest) _) as [it' err'].
  destruct (ErrorEqual err' ErrNotExist); [done|].
  destruct err'; [done|].
  apply IH. simpl in *. lia.
Qed.

(** [backfillColumn] always returns. *)
Lemma backfillColumn_returns (kf : KvFaults) (store : Store) (t : Table)
    (columnInfo : ColumnInfo) (version : N) :
  exists err, (backfillColumn kf store t columnInfo version).1.1 = Some err.
Proof.
  unfold backfillColumn.
  destruct (kf_GetSnapshot kf) as [e|]; [by exists (Some e)|].
  destruct (kf_GetTxn kf) as [e|]; [by exists (Some e)|].
  set (it := NewMvccIterator _ _).
  pose proof (backfillLoop_fuel kf t columnInfo (S (length it)) it store []
                (Nat.lt_succ_diag_r _)) as Hfuel.
  destruct (backfillLoop _ _ _ _ _ _ _ _) as [[[|e|] store'] rows]; simpl in *.
  - by exists (kf_Commit kf).
  - by exists (Some e).
  - done.
Qed.

Lemma store_eta (store : Store) :
  mkStore (∅ ∪ st_live store) (st_snapshot store) = store.
Proof. destruct store. simpl. by rewrite (left_id_L ∅ (∪)). Qed.

(** C8: a row the snapshot scan yields but the live store no longer holds
    is skipped.  The closure returns nil after the one existence probe, with
    no lock and no write; the transaction leaves the store as it was; and,
    the iterator stepping on without error, the loop goes on with the next
    row. *)
Theorem backfill_skips_deleted_row (kf : KvFaults) (t : Table)
    (columnInfo : ColumnInfo) (store : Store) (handle : Z) (k : Key)
    (rest : list Key) (fuel : nat) (rows : list RowTxn) :
  let lock := RecordKey t handle None in
  HasPrefix (DecodeKey k) (KeyPrefix t) = true ->
  DecodeHandleFromRowKey (DecodeKey k) = Val handle ->
  st_live store !! lock = None ->
  kf_Get kf lock = None ->
  backfillRow kf t columnInfo handle lock (mkTxn (st_live store) ∅ [])
    = (Ok tt, mkTxn (st_live store) ∅ [OpGet lock]) /\
  RunInNewTxn kf store true lock (backfillRow kf t columnInfo handle lock)
    = (kf_CommitRow kf lock, store, [OpGet lock]) /\
  Forall (fun o => isWrite o = false) [OpGet lock] /\
  forall it',
    NextUntil kf (k :: rest) (RowKeyPrefixFilter (EncodeKey lock)) = (it', None) ->
    backfillLoop kf t columnInfo (KeyPrefix t) (S fuel) (k :: rest) store rows
    = backfillLoop kf t columnInfo (KeyPrefix t) fuel it' store
        (rows ++ [mkRowTxn handle (kf_CommitRow kf lock) [OpGet lock]]).
Proof.
  intros lock Hpre Hh Hgone Hget. subst lock.
  set (lock := RecordKey t handle None) in *.
  assert (Hrow : backfillRow kf t columnInfo handle lock (mkTxn (st_live store) ∅ [])
                 = (Ok tt, mkTxn (st_live store) ∅ [OpGet lock])).
  { unfold backfillRow, checkRowExist, txn_bind, txn_Get. fold lock. cbn [tx_view tx_buf tx_ops].
    rewrite Hget. rewrite (left_id_L ∅ (∪)), Hgone. reflexivity. }
  assert (Hrun : RunInNewTxn kf store true lock (backfillRow kf t columnInfo handle lock)
                 = (kf_CommitRow kf lock, store, [OpGet lock])).
  { unfold RunInNewTxn. rewrite Hrow. simpl.
    destruct (kf_CommitRow kf lock); [done|]. by rewrite store_eta. }
  split; [done|]. split; [done|]. split; [by repeat constructor|].
  intros it' Hnext. cbn [backfillLoop]. cbv zeta. rewrite Hpre. cbn [negb].
  rewrite Hh. fold lock. rewrite Hrun, Hnext. reflexivity.
Qed.

(** Row 7 is in the snapshot and gone from the live store. *)
Lemma backfill_skips_deleted_row_witness :
  st_live Sample.store_deleted !! [1; 7] = None /\
  RunInNewTxn Sample.kf_ok Sample.store_deleted true [1; 7]
    (backfillRow Sample.kf_ok Sample.tbl1 Sample.col_c 7 [1; 7])
  = (None, Sample.store_deleted, [OpGet [1; 7]]).
Proof.
  assert (Hgone : st_live Sample.store_deleted !! [1; 7] = None) by reflexivity.
  split; [exact Hgone|].
  exact (proj1 (proj2 (backfill_skips_deleted_row Sample.kf_ok Sample.tbl1
                         Sample.col_c Sample.store_deleted 7 [1; 7]
                         [[1; 7; 1]; [1; 8]; [1; 8; 1]] 4 []
                         eq_refl eq_refl Hgone eq_refl))).
Defined.

(** Whenever the row exists and no store call fails, the closure locks the
    row and sets the column cell to the default value, whether or not the
    cell already holds a value. *)
Lemma backfillRow_sets_in_every_existing_row (kf : KvFaults) (t : Table)
    (columnInfo : ColumnInfo) (store : Store) (handle : Z) (v0 : Z) :
  let lock := RecordKey t handle None in
  let backfillKey := RecordKey t handle (Some columnInfo) in
  st_live store !! lock = Some v0 ->
  kf_Get kf lock = None -> kf_Get kf backfillKey = None ->
  kf_LockKeys kf lock = None -> kf_SetColValue kf backfillKey = None ->
  backfillRow kf t columnInfo handle lock (mkTxn (st_live store) ∅ [])
  = (Ok tt,
     mkTxn (st_live store) {[ backfillKey := c_DefaultValue columnInfo ]}
       [OpGet lock; OpGet backfillKey; OpLockKeys lock;
        OpSet backfillKey (c_DefaultValue columnInfo)]).
Proof.
  intros lock backfillKey Hrow Hg1 Hg2 Hl Hs.
  unfold backfillRow, checkRowExist, txn_bind, txn_Get, txn_LockKeys, SetColValue.
  fold lock backfillKey. simpl.
  rewrite Hg1, Hg2, Hl, Hs. rewrite (left_id_L ∅ (∪)), Hrow. simpl.
  by destruct ((∅ ∪ st_live store) !! backfillKey).
Qed.

(** C2 fails on the code: a second [backfillColumn] over a range whose one
    row already holds the column (written by the first run) returns nil, but
    its per-row transaction locks the row and sets the column cell again; and
    a cell that a concurrent writer filled with 42 is set back to the
    default. *)
Theorem backfillColumn_sets_again :
  let first := backfillColumn Sample.kf_ok Sample.store0 Sample.tbl1 Sample.col_c 77 in
  let second := backfillColumn Sample.kf_ok first.1.2 Sample.tbl1 Sample.col_c 77 in
  let other :=
    backfillColumn Sample.kf_ok Sample.store_written Sample.tbl1 Sample.col_c 77 in
  first.1.1 = Some None /\
  st_live first.1.2 !! [1; 7; 3] = Some 5 /\
  second.1.1 = Some None /\
  second.2 = [mkRowTxn 7 None
                [OpGet [1; 7]; OpGet [1; 7; 3]; OpLockKeys [1; 7]; OpSet [1; 7; 3] 5]] /\
  st_live Sample.store_written !! [1; 7; 3] = Some 42 /\
  st_live other.1.2 !! [1; 7; 3] = Some 5.
Proof. vm_compute. repeat split. Qed.

(** ** The theorems on the sample run *)

Lemma Sample_build_name (position : Z) (colDef : ColumnDef) (col : ColumnInfo) :
  Sample.build position colDef = Val col -> c_Name col = cd_Name colDef.
Proof.
  unfold Sample.build. destruct (String.eqb _ _); [discriminate|].
  by intros [= <-].
Qed.

(** The sample run visits the whole ladder. *)
Lemma onColumnAdd_phase_ladder_witness :
  Sample.decode (j_RawArgs (Sample.job0 "c after a")) = Val Sample.spec_after_a /\
  visited
    (phase Sample.meta0 "c"
     :: map (fun r => phase (r_meta r) "c")
          (drive Sample.build Sample.decode Sample.format Sample.envs_run Sample.meta0
             (Sample.job0 "c after a")))
  = ladder.
Proof.
  split; [reflexivity|].
  destruct (last (drive Sample.build Sample.decode Sample.format Sample.envs_run Sample.meta0
                    (Sample.job0 "c after a"))) as [r|] eqn:Hlast;
    [|vm_compute in Hlast; discriminate].
  assert (Hdone : j_State (r_job r) = JobDone).
  { vm_compute in Hlast. injection Hlast as <-. reflexivity. }
  exact (proj2 (onColumnAdd_phase_ladder Sample.build Sample.decode Sample.format
                  Sample_build_name Sample.spec_after_a Sample.envs_run
                  Sample.meta0 (Sample.job0 "c after a") eq_refl)
           r Hlast Hdone).
Defined.

(** A reorganization anchored at version 77 keeps it. *)
Lemma snapshotVer_anchored_once_witness :
  Sample.decode (j_RawArgs Sample.job_reorg) = Val Sample.spec_after_a /\
  phase Sample.meta_reorg "c" = StateReorgnization /\
  j_SnapshotVer Sample.job_reorg <> 0%N /\
  j_SnapshotVer
    (r_job (onColumnAdd Sample.build Sample.decode Sample.format Sample.env_timeout
              Sample.meta_reorg Sample.job_reorg)) = 77%N.
Proof.
  split; [reflexivity|]. split; [reflexivity|]. split; [discriminate|].
  exact (proj1 (proj2 (snapshotVer_anchored_once Sample.build Sample.decode Sample.format
                         Sample_build_name Sample.spec_after_a Sample.meta_reorg
                         Sample.job_reorg eq_refl)
                  [Sample.env_timeout] 0%nat _ eq_refl
                  ltac:(discriminate) eq_refl)).
Defined.

(** [ADD COLUMN c AFTER z] on the table [a, b]. *)
Lemma validation_failure_cancels_witness :
  env_getTableInfo Sample.env_ok = None /\
  m_table Sample.meta0 = Some Sample.tbl_ab /\
  Sample.decode (j_RawArgs (Sample.job0 "c after z")) = Val Sample.spec_after_z /\
  cancelled Sample.meta0
    (onColumnAdd Sample.build Sample.decode Sample.format Sample.env_ok Sample.meta0
       (Sample.job0 "c after z")).
Proof.
  split; [reflexivity|]. split; [reflexivity|]. split; [reflexivity|].
  exact (proj1 (proj2 (proj2 (validation_failure_cancels Sample.build Sample.decode Sample.format
                                Sample.env_ok Sample.meta0 (Sample.job0 "c after z")
                                Sample.tbl_ab eq_refl eq_refl)
                         Sample.spec_after_z eq_refl))
           eq_refl eq_refl eq_refl).
Defined.

(** A reorganization that times out. *)
Lemma reorg_timeout_no_transition_witness :
  Sample.decode (j_RawArgs Sample.job_reorg) = Val Sample.spec_after_a /\
  phase Sample.meta_reorg "c" = StateReorgnization /\
  env_runReorgJob Sample.env_timeout = errWaitReorgTimeout /\
  r_out (onColumnAdd Sample.build Sample.decode Sample.format Sample.env_timeout
           Sample.meta_reorg Sample.job_reorg) = Return None.
Proof.
  split; [reflexivity|]. split; [reflexivity|]. split; [reflexivity|].
  refine (proj1 (proj1 (reorg_timeout_no_transition Sample.build Sample.decode Sample.format
                          Sample.spec_after_a Sample.env_timeout Sample.meta_reorg
                          Sample.job_reorg Sample.col_c 77%N eq_refl eq_refl _)
                   eq_refl)).
  vm_compute. tauto.
Defined.

(** A reorganization whose backfill fails. *)
Lemma job_done_after_commit_witness :
  Sample.decode (j_RawArgs Sample.job_reorg) = Val Sample.spec_after_a /\
  phase Sample.meta_reorg "c" = StateReorgnization /\
  r_out (onColumnAdd Sample.build Sample.decode Sample.format Sample.env_backfill_fails
           Sample.meta_reorg Sample.job_reorg) = Return (Some "disk full").
Proof.
  split; [reflexivity|]. split; [reflexivity|].
  refine (proj1 (proj1 (proj2 (proj2 (job_done_after_commit Sample.build
                                        Sample.decode Sample.format Sample_build_name
                                        Sample.spec_after_a Sample.env_backfill_fails
                                        Sample.meta_reorg Sample.job_reorg
                                        eq_refl eq_refl)))
                   "disk full" Sample.col_c 77%N _ eq_refl ltac:(discriminate))).
  vm_compute. tauto.
Defined.

(** * Further properties *)

(** ** adjustColumnOffset, beyond distinct offsets *)

Lemma recordOffsets_last (columns : list ColumnInfo) (m : gmap Z Z) (k : nat)
    (c : ColumnInfo) :
  columns !! k = Some c ->
  (forall k' c', (k < k')%nat -> columns !! k' = Some c' ->
                 c_Offset c' <> c_Offset c) ->
  recordOffsets m columns !! c_Offset c = Some (c_TempOffset c).
Proof.
  revert m k. induction columns as [|c0 rest IH]; intros m k Hk Hlast.
  - by rewrite lookup_nil in Hk.
  - unfold recordOffsets. simpl.
    fold (recordOffsets (<[c_Offset c0:=c_TempOffset c0]> m) rest).
    destruct k as [|k]; simpl in Hk.
    + injection Hk as ->. rewrite recordOffsets_other; [apply lookup_insert_eq|].
      intros Hin. apply list_elem_of_fmap in Hin as (c' & Heq & Hc').
      apply list_elem_of_lookup_1 in Hc' as [k' Hk'].
      apply (Hlast (S k') c'); [lia|done|done].
    + apply (IH _ k Hk). intros k' c' Hlt Hk'.
      apply (Hlast (S k') c'); [lia|done].
Qed.

(** X1: when several columns hold the offset an index reference carries, the
    reference is rewritten to the [TempOffset] of the last of them in the
    list (the later assignment to [offsetChanged] wins). *)
Theorem adjustColumnOffset_last_holder_wins (columns : list ColumnInfo)
    (indices : list IndexInfo) (i j k : nat) (idx : IndexInfo) (r : IndexColumn)
    (c : ColumnInfo) :
  indices !! i = Some idx ->
  idx_Columns idx !! j = Some r ->
  columns !! k = Some c ->
  c_Offset c = ic_Offset r ->
  (forall k' c', (k < k')%nat -> columns !! k' = Some c' ->
                 c_Offset c' <> ic_Offset r) ->
  exists idx' r',
    (adjustColumnOffset columns indices).2 !! i = Some idx' /\
    idx_Columns idx' !! j = Some r' /\
    ic_Name r' = ic_Name r /\
    ic_Offset r' = c_TempOffset c.
Proof.
  intros Hidx Hr Hk Hoff Hlast. rewrite adjustColumnOffset_eq. simpl.
  exists (adjustIndex (recordOffsets ∅ columns) idx),
         (adjustIndexColumn (recordOffsets ∅ columns) r).
  change (map ?f ?l) with (f <$> l).
  split; [by rewrite list_lookup_fmap, Hidx|].
  split; [simpl; change (map ?f ?l) with (f <$> l); by rewrite list_lookup_fmap, Hr|].
  unfold adjustIndexColumn. rewrite <- Hoff.
  rewrite (recordOffsets_last columns ∅ k c Hk); [done|].
  intros k' c' Hlt Hk'. rewrite Hoff. by apply (Hlast k' c').
Qed.

(** The second of two columns at offset 0 decides. *)
Lemma adjustColumnOffset_last_holder_wins_witness :
  exists idx' r',
    (adjustColumnOffset Cases.cols_dup [Cases.idx_dup]).2 !! 0%nat = Some idx' /\
    idx_Columns idx' !! 0%nat = Some r' /\
    ic_Name r' = "a" /\
    ic_Offset r' = 7.
Proof.
  refine (adjustColumnOffset_last_holder_wins Cases.cols_dup [Cases.idx_dup]
            0 0 1 Cases.idx_dup (mkIndexColumn "a" 0)
            (mkColumnInfo 2 "b" 0 7 StatePublic 0)
            eq_refl eq_refl eq_refl eq_refl _).
  intros k' c' Hlt Hk'. destruct k' as [|[|k']]; [lia|lia|]. discriminate.
Defined.

Lemma recordOffsets_identity (columns : list ColumnInfo) (m : gmap Z Z) :
  identity_entries m ->
  Forall (fun c => c_Offset c = c_TempOffset c) columns ->
  identity_entries (recordOffsets m columns).
Proof.
  revert m. induction columns as [|c rest IH]; intros m Hm Hcols; [done|].
  apply Forall_cons in Hcols as [Hc Hrest].
  unfold recordOffsets. simpl. apply IH; [|done].
  intros o o'. rewrite lookup_insert. case_decide; [|apply Hm].
  intros [= <-]. congruence.
Qed.

Lemma adjustIndexColumn_identity (m : gmap Z Z) (r : IndexColumn) :
  identity_entries m -> adjustIndexColumn m r = r.
Proof.
  intros Hm. unfold adjustIndexColumn.
  destruct (m !! ic_Offset r) as [o'|] eqn:Ho; [|done].
  rewrite (Hm _ _ Ho). by destruct r.
Qed.

(** X2: [adjustColumnOffset] is idempotent: run on its own result, it
    changes neither the columns nor the index references. *)
Theorem adjustColumnOffset_idempotent (columns : list ColumnInfo)
    (indices : list IndexInfo) :
  adjustColumnOffset (adjustColumnOffset columns indices).1
                     (adjustColumnOffset columns indices).2
  = adjustColumnOffset columns indices.
Proof.
  rewrite !adjustColumnOffset_eq. simpl. f_equal.
  - rewrite map_map. by apply map_ext.
  - set (m1 := recordOffsets ∅ columns).
    set (m2 := recordOffsets ∅ _).
    assert (Hm2 : identity_entries m2).
    { apply recordOffsets_identity; [intros o o'; by rewrite lookup_empty|].
      apply Forall_forall. intros c Hc.
      change (map ?f ?l) with (f <$> l) in Hc.
      by apply list_elem_of_fmap in Hc as (c0 & -> & _). }
    rewrite map_map. apply map_ext. intros idx. unfold adjustIndex. simpl.
    f_equal. rewrite map_map. apply map_ext. intros r.
    by apply adjustIndexColumn_identity.
Qed.

(** ** addColumn: invariants, bounds and composition with adjustColumnOffset *)

Lemma stampTempOffset_offsets (l : list ColumnInfo) :
  c_Offset <$> stampTempOffset l = c_Offset <$> l.
Proof.
  apply list_eq. intros k.
  rewrite !list_lookup_fmap, stampTempOffset_lookup. by destruct (l !! k).
Qed.

Lemma spliced_offsets (tblInfo : TableInfo) (p : nat) (col : ColumnInfo) :
  c_Offset <$> ti_Columns (spliced tblInfo p col)
  = take p (c_Offset <$> ti_Columns tblInfo)
    ++ len (ti_Columns tblInfo) :: drop p (c_Offset <$> ti_Columns tblInfo).
Proof.
  unfold spliced. simpl. rewrite stampTempOffset_offsets.
  by rewrite fmap_app, fmap_cons, fmap_take, fmap_drop.
Qed.

Lemma spliced_lookup_old (tblInfo : TableInfo) (p k : nat) (col x : ColumnInfo) :
  (p <= length (ti_Columns tblInfo))%nat ->
  ti_Columns tblInfo !! k = Some x ->
  ti_Columns (spliced tblInfo p col) !! shifted p k
  = Some (set_TempOffset (Z.of_nat (shifted p k)) x).
Proof.
  intros Hp Hk. unfold spliced, shifted. simpl. rewrite stampTempOffset_lookup.
  case_decide as Hlt.
  - rewrite lookup_app_l by (rewrite length_take; lia).
    by rewrite lookup_take_lt, Hk by done.
  - rewrite lookup_app_r by (rewrite length_take; lia).
    rewrite length_take.
    replace (S k - p `min` length (ti_Columns tblInfo))%nat with (S (k - p)) by lia.
    simpl. rewrite lookup_drop.
    replace (p + (k - p))%nat with k by lia. by rewrite Hk.
Qed.

Section MutatorMore.

Variable build : Z -> ColumnDef -> Go ColumnInfo.

Lemma addColumn_offsets_invariant (tblInfo tbl' : TableInfo)
    (spec : AlterSpecification) (ic : nat * ColumnInfo) :
  NoDup (c_Offset <$> ti_Columns tblInfo) ->
  offsets_in_range (ti_Columns tblInfo) ->
  addColumn build tblInfo spec = Val (tbl', ic) ->
  NoDup (c_Offset <$> ti_Columns tbl') /\ offsets_in_range (ti_Columns tbl').
Proof.
  intros Hnd Hrange Hadd. destruct ic as [i c].
  apply addColumn_inv in Hadd as (position & col & _ & Hpos & _ & -> & -> & _).
  set (cols := ti_Columns tblInfo) in *.
  set (p := Z.to_nat position).
  assert (Hperm : c_Offset <$> ti_Columns (spliced tblInfo p col)
                  ≡ₚ len cols :: (c_Offset <$> cols)).
  { rewrite spliced_offsets. fold cols.
    rewrite <- Permutation_middle. by rewrite take_drop. }
  assert (Hall : Forall (fun o => 0 <= o <= len cols - 1) (c_Offset <$> cols)).
  { by apply Forall_fmap. }
  split.
  - rewrite Hperm. apply NoDup_cons. split; [|done].
    intros Hin. rewrite Forall_forall in Hall. specialize (Hall _ Hin). lia.
  - unfold offsets_in_range. apply Forall_fmap with (f := c_Offset)
      (P := fun o => 0 <= o <= len (ti_Columns (spliced tblInfo p col)) - 1).
    rewrite Hperm. unfold len at 1. rewrite spliced_length. fold cols.
    apply Forall_cons. split; [unfold len; lia|].
    eapply Forall_impl; [exact Hall|]. unfold len. intros o ?. simpl in *. lia.
Qed.

(** X3: [addColumn] keeps the offset invariant: if the offsets of the table
    are pairwise distinct and lie in [0 .. len-1], so do the offsets of the
    table it leaves (for the new length). *)
Theorem addColumn_keeps_offset_invariant (tblInfo tbl' : TableInfo)
    (spec : AlterSpecification) (ic : nat * ColumnInfo) :
  NoDup (map c_Offset (ti_Columns tblInfo)) ->
  offsets_in_range (ti_Columns tblInfo) ->
  addColumn build tblInfo spec = Val (tbl', ic) ->
  NoDup (map c_Offset (ti_Columns tbl')) /\ offsets_in_range (ti_Columns tbl').
Proof. apply addColumn_offsets_invariant. Qed.

(** X4: after [addColumn] and then [adjustColumnOffset], every column's
    [Offset] (and [TempOffset]) is its index in the column list, whatever the
    offsets were before. *)
Theorem addColumn_then_adjust_offsets_are_indices (tblInfo tbl' : TableInfo)
    (spec : AlterSpecification) (ic : nat * ColumnInfo) :
  addColumn build tblInfo spec = Val (tbl', ic) ->
  let columns := (adjustColumnOffset (ti_Columns tbl') (ti_Indices tbl')).1 in
  length columns = S (length (ti_Columns tblInfo)) /\
  forall k ck, columns !! k = Some ck ->
    c_Offset ck = Z.of_nat k /\ c_TempOffset ck = Z.of_nat k.
Proof.
  intros Hadd. destruct ic as [i c].
  apply addColumn_Val_facts in Hadd as (_ & _ & _ & Hlen & Htemp & _).
  rewrite adjustColumnOffset_eq. simpl. split; [by rewrite length_map|].
  intros k ck Hk. change (map ?f ?l) with (f <$> l) in Hk.
  rewrite list_lookup_fmap in Hk.
  destruct (ti_Columns tbl' !! k) as [c'|] eqn:Hc'; [|discriminate].
  simpl in Hk. injection Hk as <-. simpl. by rewrite (Htemp k c').
Qed.

(** X5: index references follow their columns through [addColumn] and
    [adjustColumnOffset]: on a table with distinct offsets in range, a
    reference that carried the offset of the column at index [k] carries,
    afterwards, the new index of that column ([k], or [k+1] when the new
    column was spliced in at or before it), which is that column's new
    offset. *)
Theorem index_references_follow_columns (tblInfo tbl' : TableInfo)
    (spec : AlterSpecification) (p : nat) (c : ColumnInfo)
    (i j k : nat) (idx : IndexInfo) (r : IndexColumn) (x : ColumnInfo) :
  NoDup (map c_Offset (ti_Columns tblInfo)) ->
  offsets_in_range (ti_Columns tblInfo) ->
  addColumn build tblInfo spec = Val (tbl', (p, c)) ->
  ti_Indices tblInfo !! i = Some idx ->
  idx_Columns idx !! j = Some r ->
  ti_Columns tblInfo !! k = Some x ->
  c_Offset x = ic_Offset r ->
  let adjusted := adjustColumnOffset (ti_Columns tbl') (ti_Indices tbl') in
  exists idx' r' x',
    adjusted.2 !! i = Some idx' /\
    idx_Columns idx' !! j = Some r' /\
    ic_Name r' = ic_Name r /\
    ic_Offset r' = Z.of_nat (shifted p k) /\
    adjusted.1 !! shifted p k = Some x' /\
    c_Offset x' = ic_Offset r' /\
    c_ID x' = c_ID x /\ c_Name x' = c_Name x.
Proof.
  intros Hnd Hrange Hadd Hidx Hr Hk Hoff adjusted. subst adjusted.
  destruct (addColumn_offsets_invariant _ _ _ _ Hnd Hrange Hadd) as [Hnd' _].
  apply addColumn_inv in Hadd as (position & col & _ & Hpos & _ & -> & -> & _).
  set (q := Z.to_nat position) in *.
  assert (Hq : (q <= length (ti_Columns tblInfo))%nat)
    by (unfold len in Hpos; lia).
  pose proof (spliced_lookup_old tblInfo q k col x Hq Hk) as Hx'.
  set (x1 := set_TempOffset (Z.of_nat (shifted q k)) x) in *.
  assert (Hin : x1 ∈ ti_Columns (spliced tblInfo q col))
    by (eapply list_elem_of_lookup_2; exact Hx').
  pose proof (recordOffsets_held _ ∅ x1 Hnd' Hin) as Hheld.
  rewrite adjustColumnOffset_eq. simpl.
  exists (adjustIndex (recordOffsets ∅ (ti_Columns (spliced tblInfo q col))) idx),
         (adjustIndexColumn (recordOffsets ∅ (ti_Columns (spliced tblInfo q col))) r),
         (set_Offset (c_TempOffset x1) x1).
  change (map ?f ?l) with (f <$> l).
  split; [by rewrite list_lookup_fmap, Hidx|].
  split; [simpl; change (map ?f ?l) with (f <$> l); by rewrite list_lookup_fmap, Hr|].
  assert (Hnew : adjustIndexColumn
                   (recordOffsets ∅ (ti_Columns (spliced tblInfo q col))) r
                 = mkIndexColumn (ic_Name r) (Z.of_nat (shifted q k))).
  { unfold adjustIndexColumn. rewrite <- Hoff.
    change (c_Offset x) with (c_Offset x1). by rewrite Hheld. }
  rewrite Hnew. simpl.
  split; [done|]. split; [done|].
  split; [|done].
  change (map ?f ?l) with (f <$> l). rewrite list_lookup_fmap.
  change (stampTempOffset _) with (ti_Columns (spliced tblInfo q col)).
  by rewrite Hx'.
Qed.

(** X6: [addColumn] panics only when the column builder panics or when the
    position computed for "after X" falls outside [0 .. len(columns)]; for
    the positions "first" and default it never panics on its own. *)
Theorem addColumn_panics_only_out_of_bounds (tblInfo : TableInfo)
    (spec : AlterSpecification) (msg : string) :
  let cols := ti_Columns tblInfo in
  (addColumn build tblInfo spec = Panic msg <->
   exists position,
     addColumn_position cols spec = Val position /\
     (build position (Column spec) = Panic msg \/
      (exists col, build position (Column spec) = Val col) /\
      ~ (0 <= position <= len cols) /\
      msg = "slice bounds out of range")) /\
  (Type_ (Position spec) <> ColumnPositionAfter ->
   addColumn build tblInfo spec = Panic msg ->
   exists position, build position (Column spec) = Panic msg).
Proof.
  intros cols.
  assert (Hiff : addColumn build tblInfo spec = Panic msg <->
    exists position,
      addColumn_position cols spec = Val position /\
      (build position (Column spec) = Panic msg \/
       (exists col, build position (Column spec) = Val col) /\
       ~ (0 <= position <= len cols) /\
       msg = "slice bounds out of range")).
  { unfold addColumn. fold cols.
    destruct (addColumn_position cols spec) as [position| |] eqn:Hpos; simpl.
    - destruct (build position (Column spec)) as [col| |] eqn:Hb; simpl.
      + unfold splice.
        destruct (Z.leb_spec 0 position), (Z.leb_spec position (len cols)); simpl.
        * split; [discriminate|].
          intros (? & [= <-] & [Hp|(_ & Hn & _)]); [congruence|lia].
        * split.
          -- intros [= <-]. exists position. split; [done|]. right.
             repeat split; eauto. lia.
          -- by intros (? & [= <-] & [Hp|(_ & _ & ->)]); [congruence|].
        * split.
          -- intros [= <-]. exists position. split; [done|]. right.
             repeat split; eauto. lia.
          -- by intros (? & [= <-] & [Hp|(_ & _ & ->)]); [congruence|].
        * split.
          -- intros [= <-]. exists position. split; [done|]. right.
             repeat split; eauto. lia.
          -- by intros (? & [= <-] & [Hp|(_ & _ & ->)]); [congruence|].
      + split; [discriminate|].
        intros (? & [= <-] & [Hp|((? & Hv) & _)]); congruence.
      + split.
        * intros [= <-]. exists position. split; [done|]. by left.
        * intros (? & [= <-] & [Hp|((? & Hv) & _)]); congruence.
    - split; [discriminate|]. by intros (? & ? & _).
    - exfalso. unfold addColumn_position in Hpos.
      destruct (Type_ (Position spec)); try discriminate.
      by destruct (findCol cols _) as [[? ?]|]. }
  split; [exact Hiff|].
  intros Hty Hpanic. apply Hiff in Hpanic
    as (position & Hpos & [Hb|(_ & Hout & _)]); [eauto|].
  exfalso. apply Hout. unfold addColumn_position in Hpos.
  destruct (Type_ (Position spec)); try done; injection Hpos as <-; unfold len; lia.
Qed.

(** X7: when the column X named by "after X" has an [Offset] equal to its
    index in the list, the new column is placed right behind X: X keeps its
    index and the new column takes the next one. *)
Theorem addColumn_after_lands_behind (tblInfo : TableInfo)
    (spec : AlterSpecification) (i : nat) (x col : ColumnInfo) :
  let cols := ti_Columns tblInfo in
  is_slice cols ->
  Type_ (Position spec) = ColumnPositionAfter ->
  findCol cols (RelativeColumn (Position spec)) = Some (i, x) ->
  c_Offset x = Z.of_nat i ->
  build (Z.of_nat i + 1) (Column spec) = Val col ->
  exists tbl' c,
    addColumn build tblInfo spec = Val (tbl', (S i, c)) /\
    ti_Columns tbl' !! i = Some (set_TempOffset (Z.of_nat i) x) /\
    ti_Columns tbl' !! S i = Some c /\
    c = set_TempOffset (Z.of_nat (S i)) (newColumn cols col).
Proof.
  intros cols Hslice Hty Hfind Hoff Hbuild. subst cols.
  pose proof (findCol_Some _ _ _ _ Hfind) as (Hi & _ & _).
  pose proof (lookup_lt_Some _ _ _ Hi) as Hlt.
  assert (Hpos : addColumn_position (ti_Columns tblInfo) spec = Val (Z.of_nat i + 1)).
  { unfold addColumn_position. rewrite Hty, Hfind, Hoff.
    rewrite (int_add_succ _ (len (ti_Columns tblInfo))); [done| |done].
    unfold len. lia. }
  assert (Hrange : 0 <= Z.of_nat i + 1 <= len (ti_Columns tblInfo))
    by (unfold len; lia).
  pose proof (addColumn_at build tblInfo spec _ col Hpos Hrange Hbuild) as Hadd.
  replace (Z.to_nat (Z.of_nat i + 1)) with (S i) in Hadd by lia.
  replace (Z.of_nat i + 1) with (Z.of_nat (S i)) in Hadd by lia.
  eexists _, _. split; [exact Hadd|].
  split.
  - pose proof (spliced_lookup_old tblInfo (S i) i col x ltac:(lia) Hi) as Hold.
    unfold shifted in Hold. by rewrite decide_True in Hold by lia.
  - split; [|done]. apply spliced_lookup_new. lia.
Qed.

End MutatorMore.

(** On the table [a, b], "after a" puts [c] behind [a]. *)
Lemma addColumn_after_lands_behind_witness :
  is_slice (ti_Columns Sample.tbl_ab) /\
  exists tbl' c,
    addColumn Sample.build Sample.tbl_ab Sample.spec_after_a = Val (tbl', (1%nat, c)) /\
    ti_Columns tbl' !! 0%nat = Some (set_TempOffset 0 Sample.col_a) /\
    ti_Columns tbl' !! 1%nat = Some c /\
    c = set_TempOffset 1 (newColumn (ti_Columns Sample.tbl_ab)
                             (mkColumnInfo 3 "c" 1 0 StatePublic 5)).
Proof.
  assert (Hs : is_slice (ti_Columns Sample.tbl_ab)).
  { unfold is_slice, len, int_max. simpl. lia. }
  split; [exact Hs|].
  exact (addColumn_after_lands_behind Sample.build Sample.tbl_ab
           Sample.spec_after_a 0 Sample.col_a
           (mkColumnInfo 3 "c" 1 0 StatePublic 5)
           Hs eq_refl eq_refl eq_refl eq_refl).
Defined.

Lemma Sample_tbl_ab_offsets :
  NoDup (map c_Offset (ti_Columns Sample.tbl_ab)) /\
  offsets_in_range (ti_Columns Sample.tbl_ab).
Proof.
  split.
  - apply (bool_decide_unpack _). vm_compute. exact I.
  - unfold offsets_in_range, len. simpl. repeat constructor; simpl; lia.
Defined.

(** [ADD COLUMN c AFTER a] on [a, b] leaves offsets 0, 2, 1. *)
Lemma addColumn_keeps_offset_invariant_witness :
  NoDup (map c_Offset (ti_Columns Sample.tbl_ab)) /\
  offsets_in_range (ti_Columns Sample.tbl_ab) /\
  NoDup [0; 2; 1].
Proof.
  destruct Sample_tbl_ab_offsets as [Hnd Hr].
  split; [exact Hnd|]. split; [exact Hr|].
  exact (proj1 (addColumn_keeps_offset_invariant Sample.build Sample.tbl_ab _
                  Sample.spec_after_a _ Hnd Hr eq_refl)).
Defined.

(** After [ADD COLUMN c AFTER a] on [a, b], offsets are indices. *)
Lemma addColumn_then_adjust_offsets_are_indices_witness :
  length (adjustColumnOffset
            [Sample.col_a; mkColumnInfo 3 "c" 2 1 StateNone 5;
             mkColumnInfo 2 "b" 1 2 StatePublic 0] [Sample.idx_b]).1 = 3%nat /\
  forall k ck,
    (adjustColumnOffset
       [Sample.col_a; mkColumnInfo 3 "c" 2 1 StateNone 5;
        mkColumnInfo 2 "b" 1 2 StatePublic 0] [Sample.idx_b]).1 !! k = Some ck ->
    c_Offset ck = Z.of_nat k /\ c_TempOffset ck = Z.of_nat k.
Proof.
  exact (addColumn_then_adjust_offsets_are_indices Sample.build
           Sample.tbl_ab _ Sample.spec_after_a _ eq_refl).
Defined.

(** The index on [b] (offset 1) references offset 2 once [c] is in. *)
Lemma index_references_follow_columns_witness :
  exists idx' r' x',
    (adjustColumnOffset
       [Sample.col_a; mkColumnInfo 3 "c" 2 1 StateNone 5;
        mkColumnInfo 2 "b" 1 2 StatePublic 0] [Sample.idx_b]).2 !! 0%nat
      = Some idx' /\
    idx_Columns idx' !! 0%nat = Some r' /\
    ic_Name r' = "b" /\
    ic_Offset r' = 2 /\
    (adjustColumnOffset
       [Sample.col_a; mkColumnInfo 3 "c" 2 1 StateNone 5;
        mkColumnInfo 2 "b" 1 2 StatePublic 0] [Sample.idx_b]).1 !! 2%nat
      = Some x' /\
    c_Offset x' = ic_Offset r' /\
    c_ID x' = 2 /\ c_Name x' = "b".
Proof.
  destruct Sample_tbl_ab_offsets as [Hnd Hr].
  exact (index_references_follow_columns Sample.build Sample.tbl_ab _
           Sample.spec_after_a 1 _ 0 0 1 Sample.idx_b (mkIndexColumn "b" 1)
           Sample.col_b Hnd Hr eq_refl eq_refl eq_refl eq_refl eq_refl).
Defined.

(** ** onColumnAdd: call protocol, job fields and error behaviour *)

Section DDLMore.

Variable build : Z -> ColumnDef -> Go ColumnInfo.
Variable decode : string -> Go AlterSpecification.
Variable format : SchemaState -> string.

Hypothesis build_name :
  forall position colDef col,
    build position colDef = Val col -> c_Name col = cd_Name colDef.

Ltac run_onColumnAdd :=
  rewrite onColumnAdd_unfold;
  unfold getTableInfo, GenSchemaVersion, onColumnAdd_switch, UpdateTable;
  repeat match goal with
         | |- context [env_CurrentVersion ?env] =>
             destruct (env_CurrentVersion env); simpl
         | |- context [adjustColumnOffset ?a ?b] =>
             destruct (adjustColumnOffset a b); simpl
         | |- context [locateColumn ?b ?t ?s] =>
             destruct (locateColumn b t s) as [[? [? ?]]| |]; simpl
         | _ => case_match; simplify_eq/=
         end.

(** X8: the calls of one invocation follow a fixed protocol.  [UpdateTable]
    is called at most once, as the last call, with the job's schema ID, and
    only after [GenSchemaVersion] succeeded in the same invocation; the
    reorganization is run only after the schema version was generated and the
    table handle loaded. *)
Theorem onColumnAdd_call_protocol (env : Env) (t : Meta) (job : Job) :
  let r := onColumnAdd build decode format env t job in
  (forall schemaID tblInfo, In (CallUpdateTable schemaID tblInfo) (r_calls r) ->
   schemaID = j_SchemaID job /\
   env_GenSchemaVersion env = None /\
   exists mid,
     r_calls r = CallGetTableInfo :: CallGenSchemaVersion :: mid
                 ++ [CallUpdateTable schemaID tblInfo] /\
     Forall (fun c => isUpdateTable c = false /\ isGenSchemaVersion c = false) mid) /\
  (forall c v, In (CallRunReorgJob c v) (r_calls r) ->
   env_GenSchemaVersion env = None /\ env_getTable env = None /\
   exists mid rest,
     r_calls r = CallGetTableInfo :: CallGenSchemaVersion :: mid
                 ++ CallGetTable :: CallRunReorgJob c v :: rest).
Proof.
  intros r. subst r. split.
  - run_onColumnAdd.
    all: intros sid0 tbl0 Hin; simpl in Hin.
    all: try (exfalso; intuition discriminate).
    all: repeat (destruct Hin as [Hin|Hin]; try discriminate; try done).
    all: injection Hin as <- <-.
    all: split; [done|]; split; [done|].
    all: first [ by exists []
               | by (eexists [_]; split; [reflexivity|repeat constructor])
               | by (eexists [_; _]; split; [reflexivity|repeat constructor])
               | by (eexists [_; _; _]; split; [reflexivity|repeat constructor]) ].
  - run_onColumnAdd.
    all: intros col0 ver0 Hin; simpl in Hin.
    all: try (exfalso; intuition discriminate).
    all: repeat (destruct Hin as [Hin|Hin]; try discriminate; try done).
    all: injection Hin as <- <-.
    all: split; [done|]; split; [done|].
    all: try first [ by (exists [], []) | by (eexists [], [_])
               | by (eexists [_], []) | by (eexists [_], [_]) ].
Qed.

(** X9: the job record is touched sparingly.  An invocation never changes
    the job's schema ID, table ID or arguments; [job.State] stays as it was
    or becomes [JobCancelled] or [JobDone]; and the job is cancelled only
    before anything is mutated: the one call made is [getTableInfo], the meta
    store is as before, and an error is returned. *)
Theorem onColumnAdd_job_fields (env : Env) (t : Meta) (job : Job) :
  let r := onColumnAdd build decode format env t job in
  j_SchemaID (r_job r) = j_SchemaID job /\
  j_TableID (r_job r) = j_TableID job /\
  j_RawArgs (r_job r) = j_RawArgs job /\
  (j_State (r_job r) = j_State job \/
   j_State (r_job r) = JobCancelled \/
   j_State (r_job r) = JobDone) /\
  (j_State (r_job r) = JobCancelled -> j_State job <> JobCancelled ->
   r_job r = set_jState JobCancelled job /\
   r_calls r = [CallGetTableInfo] /\
   r_meta r = t /\
   exists e, r_out r = Return (Some e)).
Proof.
  intros r. subst r. run_onColumnAdd.
  all: repeat split; try done; try tauto; try congruence; eauto.
Qed.

(** X10: a column in a state outside the five known ones makes the
    invocation fail, after the schema version was generated, with the message
    "invalid column state " followed by the rendering of that state; the job
    is neither cancelled nor changed, [UpdateTable] is not called, and the
    persisted table, hence the column's state, is as before. *)
Theorem onColumnAdd_invalid_state (spec : AlterSpecification) (env : Env)
    (t : Meta) (job : Job) (b : N) :
  decode (j_RawArgs job) = Val spec ->
  let name := cd_Name (Column spec) in
  phase t name = StateUnknown b ->
  env_getTableInfo env = None -> env_GenSchemaVersion env = None ->
  let r := onColumnAdd build decode format env t job in
  r_out r = Return (Some (String.append "invalid column state "
                                        (format (StateUnknown b)))) /\
  r_job r = job /\
  m_table (r_meta r) = m_table t /\
  r_calls r = [CallGetTableInfo; CallGenSchemaVersion] /\
  phase (r_meta r) name = StateUnknown b.
Proof.
  intros Hdec name Hph Hget Hgen r.
  destruct (onColumnAdd_in_phase build decode format env t job spec Hdec)
    as (tblInfo & i & c & Htbl & Hfind & Hst & Hr);
    fold name; rewrite ?Hph; try done.
  fold name in Hst. rewrite Hph in Hst. fold r in Hr.
  rewrite Hget, Hgen in Hr. unfold onColumnAdd_switch in Hr. rewrite Hst in Hr.
  rewrite Hr. simpl. repeat split. exact Hph.
Qed.

Lemma onColumnAdd_switch_mirror (env : Env) (t : Meta) (job : Job) (schemaID : Z)
    (tblInfo : TableInfo) (i : nat) (c : ColumnInfo) (calls : list Call)
    (name : string) :
  findCol (ti_Columns tblInfo) name = Some (i, c) ->
  let r := onColumnAdd_switch format env t job schemaID tblInfo i c calls in
  r_meta r = t \/
  exists tbl', m_table (r_meta r) = Some tbl' /\
               j_SchemaState (r_job r) = phase_of (ti_Columns tbl') name.
Proof.
  intros Hfind. unfold onColumnAdd_switch.
  destruct (c_State c) eqn:Hst.
  1-3: unfold UpdateTable; destruct (env_UpdateTable env); simpl;
    [by left|right]; eexists; split; [reflexivity|];
    by erewrite phase_setColumnState by exact Hfind.
  - assert (Hadj : findCol (adjustColumnOffset (ti_Columns tblInfo)
                                                (ti_Indices tblInfo)).1 name
                    = Some (i, set_Offset (c_TempOffset c) c))
      by (by apply findCol_adjusted).
    destruct (adjustColumnOffset _ _) as [columns indices]. simpl in Hadj.
    destruct (j_SnapshotVer job =? 0)%N; simpl;
      [destruct (env_CurrentVersion env) as [ver| |]; simpl; [|by left..]|].
    all: destruct (env_getTable env); simpl; [by left|].
    all: destruct (ErrorEqual _ _); simpl; [by left|].
    all: destruct (env_runReorgJob env); simpl; [by left|].
    all: unfold UpdateTable; destruct (env_UpdateTable env); simpl; [by left|right].
    all: eexists; split; [reflexivity|].
    all: by erewrite (phase_setColumnState (mkTableInfo _ columns indices))
      by exact Hadj.
  - by left.
  - by left.
Qed.

(** X11: [job.SchemaState] mirrors the persisted column: whenever an
    invocation changes the persisted table, the job's [SchemaState] is the
    state the column has in the new table. *)
Theorem job_SchemaState_mirrors_commit (spec : AlterSpecification) (env : Env)
    (t : Meta) (job : Job) :
  decode (j_RawArgs job) = Val spec ->
  let name := cd_Name (Column spec) in
  let r := onColumnAdd build decode format env t job in
  m_table (r_meta r) <> m_table t ->
  j_SchemaState (r_job r) = phase (r_meta r) name.
Proof.
  intros Hdec name r. subst r. rewrite onColumnAdd_unfold.
  destruct (getTableInfo env t job) as [tblInfo| |] eqn:Hget; simpl; [|done..].
  rewrite Hdec.
  destruct (locateColumn build tblInfo spec) as [[tbl1 [i c]]| |] eqn:Hloc;
    simpl; [|done..].
  apply (locateColumn_spec build build_name) in Hloc as (Hfind & _ & _).
  fold name in Hfind.
  pose proof (GenSchemaVersion_table env t) as Hgen.
  destruct (GenSchemaVersion env t) as [[e|] t1]; simpl in *; [done|].
  destruct (onColumnAdd_switch_mirror env t1 job (j_SchemaID job) tbl1 i c
              [CallGetTableInfo; CallGenSchemaVersion] name Hfind)
    as [->|(tbl' & Hm & Hs)]; [done|].
  intros _. unfold phase. by rewrite Hm.
Qed.

(** X12: in the DeleteOnly and WriteOnly arms [job.SchemaState] is advanced
    before [UpdateTable] is called: when that call fails the invocation
    returns its error and the persisted column keeps its state, yet the job
    record already shows the next one (and, from WriteOnly, a [SnapshotVer]
    reset to 0). *)
Theorem job_SchemaState_runs_ahead (spec : AlterSpecification) (env : Env)
    (t : Meta) (job : Job) (e : string) :
  decode (j_RawArgs job) = Val spec ->
  let name := cd_Name (Column spec) in
  let r := onColumnAdd build decode format env t job in
  env_getTableInfo env = None -> env_GenSchemaVersion env = None ->
  env_UpdateTable env = Some e ->
  (phase t name = StateDeleteOnly ->
   r_out r = Return (Some e) /\
   phase (r_meta r) name = StateDeleteOnly /\
   j_SchemaState (r_job r) = StateWriteOnly /\
   j_State (r_job r) = j_State job) /\
  (phase t name = StateWriteOnly ->
   r_out r = Return (Some e) /\
   phase (r_meta r) name = StateWriteOnly /\
   j_SchemaState (r_job r) = StateReorgnization /\
   j_SnapshotVer (r_job r) = 0%N /\
   j_State (r_job r) = j_State job).
Proof.
  intros Hdec name r Hget Hgen Hupd. split; intros Hph.
  all: destruct (onColumnAdd_in_phase build decode format env t job spec Hdec)
    as (tblInfo & i & c & Htbl & Hfind & Hst & Hr);
    fold name; rewrite ?Hph; try done.
  all: fold name in Hst; rewrite Hph in Hst; fold r in Hr.
  all: rewrite Hget, Hgen in Hr; unfold onColumnAdd_switch, UpdateTable in Hr.
  all: rewrite Hst, Hupd in Hr; rewrite Hr; simpl.
  all: repeat split; exact Hph.
Qed.

End DDLMore.

(** A column in state 9 blocks the job without cancelling it. *)
Lemma onColumnAdd_invalid_state_witness :
  Sample.decode (j_RawArgs (Sample.job0 "c")) = Val Sample.spec_last /\
  phase Cases.meta_odd "c" = StateUnknown 9 /\
  r_out (onColumnAdd Sample.build Sample.decode Sample.format Sample.env_ok
           Cases.meta_odd (Sample.job0 "c"))
  = Return (Some "invalid column state 9") /\
  r_job (onColumnAdd Sample.build Sample.decode Sample.format Sample.env_ok
           Cases.meta_odd (Sample.job0 "c")) = Sample.job0 "c".
Proof.
  split; [reflexivity|]. split; [reflexivity|].
  destruct (onColumnAdd_invalid_state Sample.build Sample.decode Sample.format
              Sample.spec_last Sample.env_ok Cases.meta_odd
              (Sample.job0 "c") 9 eq_refl eq_refl eq_refl eq_refl)
    as (Hout & Hjob & _).
  exact (conj Hout Hjob).
Defined.

(** The first invocation of the sample run persists [c] as delete-only. *)
Lemma job_SchemaState_mirrors_commit_witness :
  Sample.decode (j_RawArgs (Sample.job0 "c after a")) = Val Sample.spec_after_a /\
  j_SchemaState
    (r_job (onColumnAdd Sample.build Sample.decode Sample.format Sample.env_ok Sample.meta0
              (Sample.job0 "c after a"))) = StateDeleteOnly.
Proof.
  split; [reflexivity|].
  refine (job_SchemaState_mirrors_commit Sample.build Sample.decode Sample.format
            Sample_build_name Sample.spec_after_a Sample.env_ok Sample.meta0
            (Sample.job0 "c after a") eq_refl _).
  vm_compute. discriminate.
Defined.

(** A failed commit from write-only leaves the job at reorganization. *)
Lemma job_SchemaState_runs_ahead_witness :
  Sample.decode (j_RawArgs (Sample.job0 "c")) = Val Sample.spec_last /\
  env_UpdateTable Cases.env_no_update = Some "commit failed" /\
  phase Cases.meta_wo "c" = StateWriteOnly /\
  phase (r_meta (onColumnAdd Sample.build Sample.decode Sample.format Cases.env_no_update
                   Cases.meta_wo (Sample.job0 "c"))) "c" = StateWriteOnly /\
  j_SchemaState
    (r_job (onColumnAdd Sample.build Sample.decode Sample.format Cases.env_no_update
              Cases.meta_wo (Sample.job0 "c"))) = StateReorgnization.
Proof.
  split; [reflexivity|]. split; [reflexivity|]. split; [reflexivity|].
  destruct (proj2 (job_SchemaState_runs_ahead Sample.build Sample.decode Sample.format
                     Sample.spec_last Cases.env_no_update Cases.meta_wo
                     (Sample.job0 "c") "commit failed" eq_refl eq_refl eq_refl
                     eq_refl) eq_refl) as (_ & Hp & Hs & _).
  exact (conj Hp Hs).
Defined.

(** ** onColumnAdd: a run without store errors completes *)

Lemma temp_is_index_setColumnState (i : nat) (s : SchemaState) (tblInfo : TableInfo) :
  temp_is_index (ti_Columns tblInfo) ->
  temp_is_index (ti_Columns (setColumnState i s tblInfo)).
Proof.
  intros Ht k c. unfold setColumnState. simpl. rewrite list_lookup_alter.
  case_decide; [subst|apply Ht].
  destruct (ti_Columns tblInfo !! k) as [c0|] eqn:Hc0; simpl; [|discriminate].
  intros [= <-]. simpl. by apply Ht.
Qed.

Lemma offset_is_index_setColumnState (i : nat) (s : SchemaState) (tblInfo : TableInfo) :
  offset_is_index (ti_Columns tblInfo) ->
  offset_is_index (ti_Columns (setColumnState i s tblInfo)).
Proof.
  intros Ht k c. unfold setColumnState. simpl. rewrite list_lookup_alter.
  case_decide; [subst|apply Ht].
  destruct (ti_Columns tblInfo !! k) as [c0|] eqn:Hc0; simpl; [|discriminate].
  intros [= <-]. simpl. by apply Ht.
Qed.

Lemma length_setColumnState (i : nat) (s : SchemaState) (tblInfo : TableInfo) :
  length (ti_Columns (setColumnState i s tblInfo)) = length (ti_Columns tblInfo).
Proof. unfold setColumnState. simpl. apply length_alter. Qed.

Lemma adjusted_offset_is_index (columns : list ColumnInfo) (indices : list IndexInfo) :
  temp_is_index columns ->
  offset_is_index (adjustColumnOffset columns indices).1 /\
  length (adjustColumnOffset columns indices).1 = length columns.
Proof.
  intros Ht. rewrite adjustColumnOffset_eq. simpl. split; [|apply length_map].
  intros k c. change (map ?f ?l) with (f <$> l). rewrite list_lookup_fmap.
  destruct (columns !! k) as [c0|] eqn:Hc0; simpl; [|discriminate].
  intros [= <-]. simpl. by apply Ht.
Qed.

Section DDLLive.

Variable build : Z -> ColumnDef -> Go ColumnInfo.
Variable decode : string -> Go AlterSpecification.
Variable format : SchemaState -> string.

Hypothesis build_name :
  forall position colDef col,
    build position colDef = Val col -> c_Name col = cd_Name colDef.

Lemma drive_cons (env : Env) (envs : list Env) (t : Meta) (job : Job) (e : error) :
  j_State job <> JobDone -> j_State job <> JobCancelled ->
  r_out (onColumnAdd build decode format env t job) = Return e ->
  drive build decode format (env :: envs) t job
  = onColumnAdd build decode format env t job
    :: drive build decode format envs (r_meta (onColumnAdd build decode format env t job))
                               (r_job (onColumnAdd build decode format env t job)).
Proof.
  intros Hd Hc Hout. simpl. rewrite decide_False by tauto. by rewrite Hout.
Qed.

(** The first invocation inserts the column and persists it delete-only. *)
Lemma step_insert (spec : AlterSpecification) (env : Env) (t : Meta) (job : Job)
    (tblInfo tbl1 : TableInfo) (ic : nat * ColumnInfo) :
  decode (j_RawArgs job) = Val spec ->
  clean env ->
  m_table t = Some tblInfo ->
  findCol (ti_Columns tblInfo) (cd_Name (Column spec)) = None ->
  addColumn build tblInfo spec = Val (tbl1, ic) ->
  let r := onColumnAdd build decode format env t job in
  r_out r = Return None /\
  j_State (r_job r) = j_State job /\
  j_RawArgs (r_job r) = j_RawArgs job /\
  phase (r_meta r) (cd_Name (Column spec)) = StateDeleteOnly /\
  exists tbl', m_table (r_meta r) = Some tbl' /\
               temp_is_index (ti_Columns tbl') /\
               length (ti_Columns tbl') = S (length (ti_Columns tblInfo)).
Proof.
  intros Hdec (Hg & Hgen & Hupd & _ & _) Htbl Hfind Hadd r. subst r.
  destruct ic as [i c].
  assert (Hloc : locateColumn build tblInfo spec = Val (tbl1, (i, c)))
    by (unfold locateColumn; by rewrite Hfind).
  pose proof (locateColumn_spec build build_name _ _ _ _ _ Hloc) as (Hfind1 & _ & _).
  pose proof (addColumn_Val_facts build _ _ _ _ _ Hadd)
    as (_ & Hst & _ & Hlen & Htemp & _).
  rewrite onColumnAdd_unfold. unfold getTableInfo, GenSchemaVersion.
  rewrite Hg, Htbl, Hdec, Hloc, Hgen.
  unfold onColumnAdd_switch, UpdateTable. rewrite Hst, Hupd.
  cbn -[setColumnState phase_of].
  split; [done|]. split; [done|]. split; [done|]. split.
  - unfold phase. cbn -[setColumnState phase_of].
    by erewrite phase_setColumnState by exact Hfind1.
  - eexists. split; [reflexivity|]. split.
    + by apply temp_is_index_setColumnState.
    + by rewrite length_setColumnState.
Qed.

(** A clean invocation in DeleteOnly or WriteOnly moves one step up. *)
Lemma step_ladder (spec : AlterSpecification) (env : Env) (t : Meta) (job : Job)
    (tblInfo : TableInfo) (s s' : SchemaState) :
  decode (j_RawArgs job) = Val spec ->
  clean env ->
  m_table t = Some tblInfo ->
  phase t (cd_Name (Column spec)) = s ->
  s = StateDeleteOnly /\ s' = StateWriteOnly \/
  s = StateWriteOnly /\ s' = StateReorgnization ->
  temp_is_index (ti_Columns tblInfo) ->
  let r := onColumnAdd build decode format env t job in
  r_out r = Return None /\
  j_State (r_job r) = j_State job /\
  j_RawArgs (r_job r) = j_RawArgs job /\
  phase (r_meta r) (cd_Name (Column spec)) = s' /\
  exists tbl', m_table (r_meta r) = Some tbl' /\
               temp_is_index (ti_Columns tbl') /\
               length (ti_Columns tbl') = length (ti_Columns tblInfo).
Proof.
  intros Hdec (Hg & Hgen & Hupd & _ & _) Htbl Hph Hs Htemp r.
  destruct (onColumnAdd_in_phase build decode format env t job spec Hdec)
    as (tblInfo0 & i & c & Htbl0 & Hfind & Hst & Hr);
    [destruct Hs as [[? _]|[? _]]; congruence..|].
  rewrite Htbl in Htbl0. injection Htbl0 as <-.
  fold r in Hr. rewrite Hg, Hgen in Hr. rewrite Hph in Hst.
  unfold onColumnAdd_switch, UpdateTable in Hr.
  destruct Hs as [[-> ->]|[-> ->]]; rewrite Hst, Hupd in Hr; rewrite Hr;
    cbn -[setColumnState phase_of].
  all: split; [done|]; split; [done|]; split; [done|]; split.
  all: try (unfold phase; cbn -[setColumnState phase_of];
            by erewrite phase_setColumnState by exact Hfind).
  all: eexists; split; [reflexivity|]; split;
    [by apply temp_is_index_setColumnState|by rewrite length_setColumnState].
Qed.

(** A clean invocation whose reorganization times out changes no table. *)
Lemma step_timeout (spec : AlterSpecification) (env : Env) (t : Meta) (job : Job) :
  decode (j_RawArgs job) = Val spec ->
  clean env ->
  env_runReorgJob env = errWaitReorgTimeout ->
  phase t (cd_Name (Column spec)) = StateReorgnization ->
  let r := onColumnAdd build decode format env t job in
  r_out r = Return None /\
  j_State (r_job r) = j_State job /\
  j_RawArgs (r_job r) = j_RawArgs job /\
  m_table (r_meta r) = m_table t.
Proof.
  intros Hdec (Hg & Hgen & Hupd & [ver Hver] & Hgt) Htime Hph r.
  destruct (onColumnAdd_in_phase build decode format env t job spec Hdec)
    as (tblInfo0 & i & c & Htbl0 & Hfind & Hst & Hr); [congruence..|].
  fold r in Hr. rewrite Hg, Hgen in Hr. rewrite Hph in Hst.
  unfold onColumnAdd_switch in Hr. rewrite Hst, Hver, Hgt, Htime in Hr.
  rewrite Hr. by destruct (j_SnapshotVer job =? 0)%N.
Qed.

(** A clean invocation whose reorganization completes makes the column
    public. *)
Lemma step_finish (spec : AlterSpecification) (env : Env) (t : Meta) (job : Job)
    (tblInfo : TableInfo) :
  decode (j_RawArgs job) = Val spec ->
  clean env ->
  env_runReorgJob env = None ->
  m_table t = Some tblInfo ->
  phase t (cd_Name (Column spec)) = StateReorgnization ->
  temp_is_index (ti_Columns tblInfo) ->
  let r := onColumnAdd build decode format env t job in
  r_out r = Return None /\
  j_State (r_job r) = JobDone /\
  j_SchemaState (r_job r) = StatePublic /\
  exists tblF, m_table (r_meta r) = Some tblF /\
               phase_of (ti_Columns tblF) (cd_Name (Column spec)) = StatePublic /\
               offset_is_index (ti_Columns tblF) /\
               length (ti_Columns tblF) = length (ti_Columns tblInfo).
Proof.
  intros Hdec (Hg & Hgen & Hupd & [ver Hver] & Hgt) Hrun Htbl Hph Htemp r.
  destruct (onColumnAdd_in_phase build decode format env t job spec Hdec)
    as (tblInfo0 & i & c & Htbl0 & Hfind & Hst & Hr); [congruence..|].
  rewrite Htbl in Htbl0. injection Htbl0 as <-.
  fold r in Hr. rewrite Hg, Hgen in Hr. rewrite Hph in Hst.
  pose proof (findCol_adjusted tblInfo _ i c Hfind) as Hadj.
  destruct (adjusted_offset_is_index (ti_Columns tblInfo) (ti_Indices tblInfo) Htemp)
    as [Hoff Hlen].
  unfold onColumnAdd_switch, UpdateTable in Hr.
  rewrite Hst, Hver, Hgt, Hrun, Hupd in Hr.
  destruct (adjustColumnOffset _ _) as [columns indices]. simpl in *.
  rewrite Hr. destruct (j_SnapshotVer job =? 0)%N; cbn -[setColumnState phase_of].
  all: split; [done|]; split; [done|]; split; [done|].
  all: eexists; split; [reflexivity|]; split;
    [by erewrite (phase_setColumnState (mkTableInfo _ columns indices))
       by exact Hadj|].
  all: split; [by apply (offset_is_index_setColumnState _ _
                           (mkTableInfo (ti_ID tblInfo) columns indices))|].
  all: by rewrite (length_setColumnState _ _
                     (mkTableInfo (ti_ID tblInfo) columns indices)).
Qed.

Lemma last_cons_nonempty {A} (x y : A) (l : list A) :
  last l = Some y -> last (x :: l) = Some y.
Proof. destruct l; [discriminate|]. by rewrite last_cons_cons. Qed.

(** From the reorganization phase on: any number of timeouts, then the
    invocation that completes. *)
Lemma reorg_tail (spec : AlterSpecification) (ts : list Env) (e5 : Env)
    (t : Meta) (job : Job) (tblInfo : TableInfo) :
  decode (j_RawArgs job) = Val spec ->
  j_State job <> JobDone -> j_State job <> JobCancelled ->
  m_table t = Some tblInfo ->
  phase t (cd_Name (Column spec)) = StateReorgnization ->
  temp_is_index (ti_Columns tblInfo) ->
  Forall clean ts ->
  Forall (fun e => env_runReorgJob e = errWaitReorgTimeout) ts ->
  clean e5 -> env_runReorgJob e5 = None ->
  let hist := drive build decode format (ts ++ [e5]) t job in
  length hist = S (length ts) /\
  Forall (fun r => r_out r = Return None) hist /\
  exists r tblF,
    last hist = Some r /\
    j_State (r_job r) = JobDone /\
    j_SchemaState (r_job r) = StatePublic /\
    m_table (r_meta r) = Some tblF /\
    phase_of (ti_Columns tblF) (cd_Name (Column spec)) = StatePublic /\
    offset_is_index (ti_Columns tblF) /\
    length (ti_Columns tblF) = length (ti_Columns tblInfo).
Proof.
  revert t job.
  induction ts as [|e ts IH];
    intros t job Hdec Hnd Hnc Htbl Hph Htemp Hclean Htime Hc5 Hr5.
  - simpl app.
    destruct (step_finish spec e5 t job tblInfo Hdec Hc5 Hr5 Htbl Hph Htemp)
      as (Hout & Hdone & Hss & tblF & Hm & Hpub & Hoff & Hlen).
    cbv zeta. rewrite (drive_cons _ _ _ _ None) by done. simpl drive.
    split; [done|]. split; [by repeat constructor|].
    eexists _, tblF. split; [reflexivity|]. done.
  - apply Forall_cons in Hclean as [Hce Hclean].
    apply Forall_cons in Htime as [Hte Htime].
    destruct (step_timeout spec e t job Hdec Hce Hte Hph)
      as (Hout & Hjs & Hraw & Hm).
    cbv zeta. simpl app. rewrite (drive_cons _ _ _ _ None) by done.
    set (r0 := onColumnAdd build decode format e t job) in *.
    assert (Hph0 : phase (r_meta r0) (cd_Name (Column spec)) = StateReorgnization)
      by (by rewrite (phase_same_table t)).
    destruct (IH (r_meta r0) (r_job r0) ltac:(congruence) ltac:(congruence)
                ltac:(congruence) ltac:(congruence) Hph0 Htemp Hclean Htime Hc5 Hr5)
      as (Hlen & Hall & r & tblF & Hlast & Hrest).
    split; [simpl; by rewrite Hlen|]. split; [by constructor|].
    exists r, tblF. split; [by apply last_cons_nonempty|done].
Qed.

(** X13: a run without store errors completes.  Starting from a table that
    does not hold the column and on which [addColumn] succeeds, three clean
    invocations, then any number of invocations whose reorganization times
    out, then one whose reorganization completes: every invocation returns
    nil, the last one leaves the job [JobDone] with [SchemaState] public, and
    the persisted table holds the column, public, with one column more than
    before and every column's [Offset] equal to its index. *)
Theorem add_column_completes (spec : AlterSpecification) (e1 e2 e3 e5 : Env)
    (ts : list Env) (t : Meta) (job : Job) (tblInfo tbl1 : TableInfo)
    (ic : nat * ColumnInfo) :
  decode (j_RawArgs job) = Val spec ->
  j_State job <> JobDone -> j_State job <> JobCancelled ->
  m_table t = Some tblInfo ->
  findCol (ti_Columns tblInfo) (cd_Name (Column spec)) = None ->
  addColumn build tblInfo spec = Val (tbl1, ic) ->
  Forall clean (e1 :: e2 :: e3 :: ts ++ [e5]) ->
  Forall (fun e => env_runReorgJob e = errWaitReorgTimeout) ts ->
  env_runReorgJob e5 = None ->
  let hist := drive build decode format (e1 :: e2 :: e3 :: ts ++ [e5]) t job in
  length hist = (4 + length ts)%nat /\
  Forall (fun r => r_out r = Return None) hist /\
  exists r tblF,
    last hist = Some r /\
    j_State (r_job r) = JobDone /\
    j_SchemaState (r_job r) = StatePublic /\
    m_table (r_meta r) = Some tblF /\
    phase_of (ti_Columns tblF) (cd_Name (Column spec)) = StatePublic /\
    offset_is_index (ti_Columns tblF) /\
    length (ti_Columns tblF) = S (length (ti_Columns tblInfo)).
Proof.
  intros Hdec Hnd Hnc Htbl Hfind Hadd Hclean Htime Hr5.
  apply Forall_cons in Hclean as [Hc1 Hclean].
  apply Forall_cons in Hclean as [Hc2 Hclean].
  apply Forall_cons in Hclean as [Hc3 Hclean].
  apply Forall_app in Hclean as [Hcts Hc5].
  rewrite Forall_singleton in Hc5.
  destruct (step_insert spec e1 t job tblInfo tbl1 ic Hdec Hc1 Htbl Hfind Hadd)
    as (Hout1 & Hjs1 & Hraw1 & Hph1 & tblA & HmA & HtA & HlA).
  cbv zeta. rewrite (drive_cons _ _ _ _ None) by done.
  set (r1 := onColumnAdd build decode format e1 t job) in *.
  assert (Hdec1 : decode (j_RawArgs (r_job r1)) = Val spec) by congruence.
  destruct (step_ladder spec e2 (r_meta r1) (r_job r1) tblA StateDeleteOnly
              StateWriteOnly Hdec1 Hc2 HmA Hph1 ltac:(by left) HtA)
    as (Hout2 & Hjs2 & Hraw2 & Hph2 & tblB & HmB & HtB & HlB).
  rewrite (drive_cons _ _ _ _ None) by congruence.
  set (r2 := onColumnAdd build decode format e2 (r_meta r1) (r_job r1)) in *.
  assert (Hdec2 : decode (j_RawArgs (r_job r2)) = Val spec) by congruence.
  destruct (step_ladder spec e3 (r_meta r2) (r_job r2) tblB StateWriteOnly
              StateReorgnization Hdec2 Hc3 HmB Hph2 ltac:(by right) HtB)
    as (Hout3 & Hjs3 & Hraw3 & Hph3 & tblC & HmC & HtC & HlC).
  rewrite (drive_cons _ _ _ _ None) by congruence.
  set (r3 := onColumnAdd build decode format e3 (r_meta r2) (r_job r2)) in *.
  assert (Hdec3 : decode (j_RawArgs (r_job r3)) = Val spec) by congruence.
  destruct (reorg_tail spec ts e5 (r_meta r3) (r_job r3) tblC Hdec3
              ltac:(congruence) ltac:(congruence) HmC Hph3 HtC Hcts Htime Hc5 Hr5)
    as (Hlen & Hall & r & tblF & Hlast & Hd & Hs & Hm & Hp & Ho & Hl).
  split; [simpl; by rewrite Hlen|].
  split; [by repeat constructor|].
  exists r, tblF. split.
  { by do 3 apply last_cons_nonempty. }
  repeat split; try done. congruence.
Qed.

End DDLLive.

Lemma Sample_env_ok_clean : clean Sample.env_ok.
Proof. unfold clean. simpl. repeat split. by exists 77%N. Defined.

Lemma Sample_env_timeout_clean : clean Sample.env_timeout.
Proof. unfold clean. simpl. repeat split. by exists 77%N. Defined.

Lemma Sample_envs_run_clean :
  Forall clean (Sample.env_ok :: Sample.env_ok :: Sample.env_ok
                :: [Sample.env_timeout] ++ [Sample.env_ok]).
Proof.
  simpl.
  repeat (apply List.Forall_cons;
          [first [exact Sample_env_ok_clean|exact Sample_env_timeout_clean]|]).
  apply List.Forall_nil.
Defined.

(** The sample run: three transitions, one timeout, completion. *)
Lemma add_column_completes_witness :
  length (drive Sample.build Sample.decode Sample.format Sample.envs_run Sample.meta0
            (Sample.job0 "c after a")) = 5%nat /\
  Forall (fun r => r_out r = Return None)
    (drive Sample.build Sample.decode Sample.format Sample.envs_run Sample.meta0
       (Sample.job0 "c after a")).
Proof.
  pose proof (add_column_completes Sample.build Sample.decode Sample.format Sample_build_name
                Sample.spec_after_a Sample.env_ok Sample.env_ok Sample.env_ok
                Sample.env_ok [Sample.env_timeout] Sample.meta0
                (Sample.job0 "c after a") Sample.tbl_ab _ _
                eq_refl ltac:(discriminate) ltac:(discriminate) eq_refl eq_refl
                eq_refl
                Sample_envs_run_clean
                ltac:(apply List.Forall_cons; [reflexivity|apply List.Forall_nil])
                eq_refl)
    as (Hlen & Hall & _).
  exact (conj Hlen Hall).
Defined.

(** ** backfillColumn: what a scan does to the store *)

Lemma NewMvccIterator_length (snap : list Key) (start : Key) :
  (length (NewMvccIterator snap start) <= length snap)%nat.
Proof.
  induction snap as [|k rest IH]; simpl; [done|].
  destruct (key_ltb k start); simpl; lia.
Qed.

Lemma NextUntil_ext (kf kf' : KvFaults) (it : list Key) (fn : Key -> bool) :
  (forall k, kf_Next kf k = kf_Next kf' k) ->
  NextUntil kf it fn = NextUntil kf' it fn.
Proof.
  intros Hn. induction it as [|k rest IH]; simpl; [done|].
  destruct (fn k); [done|]. rewrite <- Hn. by destruct (kf_Next kf k).
Qed.

(** The shape of one per-row transaction: an initial segment of [rowOps];
    the buffer is empty unless the transaction ran to its end. *)
Lemma backfillRow_shape (kf : KvFaults) (t : Table) (columnInfo : ColumnInfo)
    (handle : Z) (view : gmap (list Z) Z) :
  let run := backfillRow kf t columnInfo handle (RecordKey t handle None)
               (mkTxn view ∅ []) in
  tx_view run.2 = view /\
  tx_ops run.2 `prefix_of` rowOps t columnInfo handle /\
  (tx_buf run.2 = ∅ \/
   run.1 = Ok tt /\
   tx_ops run.2 = rowOps t columnInfo handle /\
   tx_buf run.2
   = {[ RecordKey t handle (Some columnInfo) := c_DefaultValue columnInfo ]} /\
   is_Some (view !! RecordKey t handle None)).
Proof.
  unfold backfillRow, checkRowExist, txn_bind, txn_Get, txn_LockKeys, SetColValue,
    rowOps, txn_ret, txn_fail, IsErrNotFound.
  remember (RecordKey t handle None) as lock eqn:Hlock.
  remember (RecordKey t handle (Some columnInfo)) as bk eqn:Hbk.
  clear Hlock Hbk.
  cbn [tx_view tx_buf tx_ops app fst snd].
  rewrite (left_id_L ∅ (∪)).
  destruct (kf_Get kf lock) as [e|]; cbn [fst snd].
  { destruct (ErrorEqual (Some e) ErrNotExist); cbn;
      (split; [done|]); (split; [eexists; reflexivity|by left]). }
  destruct (view !! lock) as [v0|]; cbn [fst snd];
    [change (ErrorEqual None ErrNotExist) with false
    |change (ErrorEqual ErrNotExist ErrNotExist) with true]; cbn;
    [|split; [done|]; split; [eexists; reflexivity|by left]].
  rewrite ?(left_id_L ∅ (∪)).
  destruct (kf_Get kf bk) as [e|]; cbn [fst snd];
    [destruct (ErrorEqual (Some e) ErrNotExist)|destruct (view !! bk)];
    cbn [fst snd negb];
    try change (ErrorEqual ErrNotExist ErrNotExist) with true; cbn.
  all: try (split; [done|]; split; [eexists; reflexivity|by left]).
  all: destruct (kf_LockKeys kf lock); cbn;
    [split; [done|]; split; [eexists; reflexivity|by left]|].
  all: destruct (kf_SetColValue kf bk); cbn;
    [split; [done|]; split; [eexists; reflexivity|by left]|].
  all: split; [done|]; split; [done|]; right; by repeat split.
Qed.

Lemma RunInNewTxn_backfillRow (kf : KvFaults) (store : Store) (t : Table)
    (columnInfo : ColumnInfo) (handle : Z) :
  let lock := RecordKey t handle None in
  let run := RunInNewTxn kf store true lock
               (backfillRow kf t columnInfo handle lock) in
  st_snapshot run.1.2 = st_snapshot store /\
  run.2 `prefix_of` rowOps t columnInfo handle /\
  (st_live run.1.2 = st_live store \/
   run.1.1 = None /\
   run.2 = rowOps t columnInfo handle /\
   st_live run.1.2
   = <[RecordKey t handle (Some columnInfo) := c_DefaultValue columnInfo]>
       (st_live store) /\
   is_Some (st_live store !! lock)).
Proof.
  intros lock run. subst run lock. unfold RunInNewTxn.
  pose proof (backfillRow_shape kf t columnInfo handle (st_live store))
    as (Hview & Hops & Hbuf).
  cbv zeta in Hview, Hops, Hbuf.
  destruct (backfillRow _ _ _ _ _ _) as [[u|e] txn]; simpl in *.
  - destruct (kf_CommitRow kf _); simpl; [by auto|].
    split; [done|]. split; [done|].
    destruct Hbuf as [->|(_ & Hfull & -> & Hrow)].
    + left. by rewrite (left_id_L ∅ (∪)).
    + right. split; [done|]. split; [done|]. split; [|done].
      by rewrite insert_union_singleton_l.
  - split; [done|]. split; [done|]. by left.
Qed.

Lemma scan_frame_refl (t : Table) (columnInfo : ColumnInfo) (store : Store)
    (rows : list RowTxn) (bound : nat) :
  scan_frame t columnInfo store rows bound store rows.
Proof.
  split; [done|]. exists []. rewrite app_nil_r. simpl.
  repeat split; auto. lia.
Qed.

(** What the loop of [backfillColumn] does to the store and which
    transactions it adds. *)
Lemma backfillLoop_frame (kf : KvFaults) (t : Table) (columnInfo : ColumnInfo)
    (prefix : Key) (fuel : nat) (it : list Key) (store : Store)
    (rows : list RowTxn) :
  scan_frame t columnInfo store rows fuel
    (backfillLoop kf t columnInfo prefix fuel it store rows).1.2
    (backfillLoop kf t columnInfo prefix fuel it store rows).2.
Proof.
  revert it store rows.
  induction fuel as [|fuel IH]; intros it store rows; cbn [backfillLoop].
  { apply scan_frame_refl. }
  destruct it as [|k0 rest]; [apply scan_frame_refl|]. cbv zeta.
  destruct (negb (HasPrefix (DecodeKey k0) prefix)); [apply scan_frame_refl|].
  destruct (DecodeHandleFromRowKey (DecodeKey k0)) as [handle| |];
    [|apply scan_frame_refl..].
  pose proof (RunInNewTxn_backfillRow kf store t columnInfo handle)
    as (Hsnap & Hops & Hlive).
  cbv zeta in Hsnap, Hops, Hlive.
  destruct (RunInNewTxn kf store true _ _) as [[err store1] ops].
  cbn [fst snd] in *.
  set (row := mkRowTxn handle err ops).
  assert (Hone : scan_frame t columnInfo store rows (S fuel) store1 (rows ++ [row])).
  { split; [done|]. exists [row]. simpl.
    split; [done|]. split; [lia|]. split; [by repeat constructor|].
    intros k. destruct Hlive as [->|(_ & _ & -> & _)]; [by left|].
    destruct (decide (k = RecordKey t handle (Some columnInfo))) as [->|Hne].
    - right. exists row. split; [apply list_elem_of_here|]. split; [done|].
      apply lookup_insert_eq.
    - left. by rewrite lookup_insert_ne. }
  destruct (NextUntil kf (k0 :: rest) _) as [it' err'].
  destruct (ErrorEqual err' ErrNotExist); [exact Hone|].
  destruct err'; [exact Hone|].
  specialize (IH it' store1 (rows ++ [row])).
  destruct (backfillLoop kf t columnInfo prefix fuel it' store1 (rows ++ [row]))
    as [[exit store2] rows2]. cbn [fst snd] in *.
  destruct IH as (Hsnap2 & new & -> & Hlen & Hall & Hframe).
  destruct Hone as (_ & new1 & Hnew1 & _ & _ & Hk).
  apply app_inv_head in Hnew1 as <-.
  split; [congruence|]. exists (row :: new).
  split; [by rewrite <- app_assoc|]. split; [simpl; lia|].
  split; [by constructor|].
  intros k. destruct (Hframe k) as [Heq|(row' & Hin & -> & Hd)].
  - destruct (Hk k) as [Hsame|(row' & Hin & -> & Hd)].
    + left. congruence.
    + right. exists row'. split; [|split; [done|congruence]].
      apply elem_of_cons in Hin as [->|Hin]; [apply list_elem_of_here|].
      by apply elem_of_nil in Hin.
  - right. exists row'. split; [by apply list_elem_of_further|done].
Qed.

Lemma NextUntil_sublist (kf : KvFaults) (it : list Key) (fn : Key -> bool) :
  (NextUntil kf it fn).1 `sublist_of` it.
Proof.
  induction it as [|k rest IH]; simpl; [done|].
  destruct (fn k); simpl; [done|].
  destruct (kf_Next kf k); simpl; [apply sublist_nil_l|by apply sublist_cons].
Qed.

Lemma NextUntil_sublist_tail (kf : KvFaults) (k : Key) (rest : list Key)
    (fn : Key -> bool) :
  fn k = false -> (NextUntil kf (k :: rest) fn).1 `sublist_of` rest.
Proof.
  intros Hk. simpl. rewrite Hk.
  destruct (kf_Next kf k); simpl; [apply sublist_nil_l|apply NextUntil_sublist].
Qed.

Lemma NewMvccIterator_sublist (snap : list Key) (start : Key) :
  NewMvccIterator snap start `sublist_of` snap.
Proof.
  induction snap as [|k rest IH]; simpl; [done|].
  destruct (key_ltb k start); [by apply sublist_cons|done].
Qed.

(** The keys at which the loop stops are met in iterator order, each once. *)
Lemma backfillLoop_visits (kf : KvFaults) (t : Table) (columnInfo : ColumnInfo)
    (fuel : nat) (it : list Key) (store : Store) (rows : list RowTxn) :
  exists keys new,
    keys `sublist_of` it /\
    (backfillLoop kf t columnInfo (KeyPrefix t) fuel it store rows).2
    = rows ++ new /\
    Forall2 (visited_at t) keys new.
Proof.
  revert it store rows.
  induction fuel as [|fuel IH]; intros it store rows; cbn [backfillLoop].
  { exists [], []. rewrite app_nil_r. by repeat split; [apply sublist_nil_l|]. }
  assert (Hnone : forall exit : LoopExit,
            exists keys new, keys `sublist_of` it /\
              (exit, store, rows).2 = rows ++ new /\
              Forall2 (visited_at t) keys new).
  { intros exit. exists [], []. simpl. rewrite app_nil_r.
    by repeat split; [apply sublist_nil_l|]. }
  destruct it as [|k rest]; [apply Hnone|]. unfold DecodeKey, EncodeKey.
  destruct (HasPrefix k (KeyPrefix t)) eqn:Hpre; cbn [negb]; [|apply Hnone].
  destruct (DecodeHandleFromRowKey k) as [handle| |] eqn:Hh; [|apply Hnone..].
  destruct (RunInNewTxn _ _ _ _ _) as [[err store'] ops].
  pose proof (NextUntil_sublist_tail kf k rest
                (RowKeyPrefixFilter (RecordKey t handle None))
                (RowKeyPrefixFilter_own_row t k handle Hpre Hh)) as Hsub.
  destruct (NextUntil kf (k :: rest) _) as [it' err']. cbn [fst] in Hsub.
  assert (Hone : forall exit : LoopExit,
            exists keys new, keys `sublist_of` k :: rest /\
              (exit, store', rows ++ [mkRowTxn handle err ops]).2 = rows ++ new /\
              Forall2 (visited_at t) keys new).
  { intros exit. exists [k], [mkRowTxn handle err ops]. cbn [snd].
    split; [apply sublist_skip, sublist_nil_l|]. split; [done|].
    by repeat constructor. }
  destruct (ErrorEqual err' ErrNotExist); [apply Hone|].
  destruct err'; [apply Hone|].
  destruct (IH it' store' (rows ++ [mkRowTxn handle err ops]))
    as (keys & new & Hk & -> & Hall).
  exists (k :: keys), (mkRowTxn handle err ops :: new).
  split; [apply sublist_skip; by etransitivity|].
  split; [by rewrite <- app_assoc|].
  constructor; [done|exact Hall].
Qed.

(** X14: the scan only moves forward.  Every call of [kv.RunInNewTxn] made
    by [backfillColumn] is for a key of the snapshot under the table's prefix,
    whose handle is the one the call works on, and the keys of successive
    calls follow each other in the snapshot: no key is taken twice, so there
    are at most as many calls as the snapshot has keys and, every store call
    returning, the loop ends and [backfillColumn] returns. *)
Theorem backfillColumn_bounded (kf : KvFaults) (store : Store) (t : Table)
    (columnInfo : ColumnInfo) (version : N) :
  let res := backfillColumn kf store t columnInfo version in
  (exists err, res.1.1 = Some err) /\
  (exists keys,
     keys `sublist_of` st_snapshot store version /\
     Forall2 (visited_at t) keys res.2) /\
  (length res.2 <= length (st_snapshot store version))%nat.
Proof.
  intros res. subst res.
  assert (Hkeys : exists keys,
            keys `sublist_of` st_snapshot store version /\
            Forall2 (visited_at t) keys
              (backfillColumn kf store t columnInfo version).2).
  { unfold backfillColumn.
    destruct (kf_GetSnapshot kf);
      [exists []; split; [apply sublist_nil_l|constructor]|].
    destruct (kf_GetTxn kf);
      [exists []; split; [apply sublist_nil_l|constructor]|].
    set (it := NewMvccIterator _ _).
    destruct (backfillLoop_visits kf t columnInfo (S (length it)) it store [])
      as (keys & new & Hsub & Hrows & Hall).
    exists keys. split.
    - etransitivity; [exact Hsub|apply NewMvccIterator_sublist].
    - destruct (backfillLoop _ _ _ _ _ _ _ _) as [[[| |] ?] rows];
        simpl in *; by subst rows. }
  split; [apply backfillColumn_returns|]. split; [exact Hkeys|].
  destruct Hkeys as (keys & Hsub & Hall).
  rewrite <- (Forall2_length _ _ _ Hall). by apply sublist_length.
Qed.

Lemma backfillColumn_scan_frame (kf : KvFaults) (store : Store) (t : Table)
    (columnInfo : ColumnInfo) (version : N) :
  exists bound,
    scan_frame t columnInfo store [] bound
      (backfillColumn kf store t columnInfo version).1.2
      (backfillColumn kf store t columnInfo version).2.
Proof.
  unfold backfillColumn.
  destruct (kf_GetSnapshot kf); [exists 0%nat; apply scan_frame_refl|].
  destruct (kf_GetTxn kf); [exists 0%nat; apply scan_frame_refl|].
  set (it := NewMvccIterator _ _). exists (S (length it)).
  pose proof (backfillLoop_frame kf t columnInfo (KeyPrefix t) (S (length it)) it
                store []) as Hf.
  by destruct (backfillLoop _ _ _ _ _ _ _ _) as [[[| |] ?] rows].
Qed.

(** X15: [backfillColumn] writes nothing but the new column's cells.  The
    snapshots are untouched; every live key either holds what it held before,
    or is the column cell of a row the scan visited and now holds the default
    value; in particular no key is ever removed. *)
Theorem backfillColumn_frame (kf : KvFaults) (store : Store) (t : Table)
    (columnInfo : ColumnInfo) (version : N) :
  let res := backfillColumn kf store t columnInfo version in
  st_snapshot res.1.2 = st_snapshot store /\
  (forall k,
     st_live res.1.2 !! k = st_live store !! k \/
     exists row, row ∈ res.2 /\
                 k = RecordKey t (rt_handle row) (Some columnInfo) /\
                 st_live res.1.2 !! k = Some (c_DefaultValue columnInfo)) /\
  (forall k, is_Some (st_live store !! k) -> is_Some (st_live res.1.2 !! k)).
Proof.
  intros res. subst res.
  destruct (backfillColumn_scan_frame kf store t columnInfo version)
    as (bound & Hsnap & new & Hrows & _ & _ & Hframe).
  simpl in Hrows. rewrite Hrows.
  split; [done|]. split; [exact Hframe|].
  intros k Hk. destruct (Hframe k) as [->|(_ & _ & _ & ->)]; [done|by eexists].
Qed.

Lemma prefix_of_rowOps_with_set (t : Table) (columnInfo : ColumnInfo) (handle : Z)
    (ops : list Op) (k : Key) (v : Z) :
  ops `prefix_of` rowOps t columnInfo handle ->
  In (OpSet k v) ops ->
  ops = rowOps t columnInfo handle.
Proof.
  intros [rest Hrest] Hin. unfold rowOps in *.
  destruct ops as [|o1 [|o2 [|o3 [|o4 [|o5 ops]]]]]; simpl in *;
    simplify_eq/=; try (intuition discriminate).
Qed.

(** X16: the locking discipline of the scan.  Every per-row transaction
    performs an initial segment of: probe the row's lock key, probe the
    column cell, lock the row, set the cell.  So a transaction that sets
    anything has first locked the row, and what it sets is the column cell of
    its own row, to the column's default value. *)
Theorem backfillColumn_locks_before_write (kf : KvFaults) (store : Store)
    (t : Table) (columnInfo : ColumnInfo) (version : N) (row : RowTxn) :
  row ∈ (backfillColumn kf store t columnInfo version).2 ->
  rt_ops row `prefix_of` rowOps t columnInfo (rt_handle row) /\
  forall k v, In (OpSet k v) (rt_ops row) ->
    rt_ops row = rowOps t columnInfo (rt_handle row) /\
    k = RecordKey t (rt_handle row) (Some columnInfo) /\
    v = c_DefaultValue columnInfo.
Proof.
  intros Hrow.
  destruct (backfillColumn_scan_frame kf store t columnInfo version)
    as (bound & _ & new & Hrows & _ & Hall & _).
  simpl in Hrows. rewrite Hrows in Hrow.
  rewrite Forall_forall in Hall. specialize (Hall row Hrow).
  split; [done|]. intros k v Hin.
  pose proof (prefix_of_rowOps_with_set _ _ _ _ k v Hall Hin) as Hfull.
  split; [done|]. rewrite Hfull in Hin. unfold rowOps in Hin. simpl in Hin.
  destruct Hin as [Hin|[Hin|[Hin|[Hin|[]]]]]; try discriminate.
  by injection Hin as <- <-.
Qed.

(** Row 7 of the sample store is locked, then set. *)
Lemma backfillColumn_locks_before_write_witness :
  mkRowTxn 7 None (rowOps Sample.tbl1 Sample.col_c 7)
    ∈ (backfillColumn Sample.kf_ok Sample.store0 Sample.tbl1 Sample.col_c 77).2 /\
  rowOps Sample.tbl1 Sample.col_c 7 `prefix_of` rowOps Sample.tbl1 Sample.col_c 7.
Proof.
  assert (Hin : mkRowTxn 7 None (rowOps Sample.tbl1 Sample.col_c 7)
    ∈ (backfillColumn Sample.kf_ok Sample.store0 Sample.tbl1 Sample.col_c 77).2).
  { vm_compute. apply list_elem_of_here. }
  split; [exact Hin|].
  exact (proj1 (backfillColumn_locks_before_write Sample.kf_ok Sample.store0
                  Sample.tbl1 Sample.col_c 77 _ Hin)).
Defined.

(** The control flow of the loop depends on the iterator alone. *)
Lemma backfillLoop_control (kf kf' : KvFaults) (t : Table) (columnInfo : ColumnInfo)
    (prefix : Key) (fuel : nat) (it : list Key) (store store' : Store)
    (rows rows' : list RowTxn) :
  (forall k, kf_Next kf k = kf_Next kf' k) ->
  rt_handle <$> rows = rt_handle <$> rows' ->
  (backfillLoop kf t columnInfo prefix fuel it store rows).1.1
  = (backfillLoop kf' t columnInfo prefix fuel it store' rows').1.1 /\
  rt_handle <$> (backfillLoop kf t columnInfo prefix fuel it store rows).2
  = rt_handle <$> (backfillLoop kf' t columnInfo prefix fuel it store' rows').2.
Proof.
  intros Hnext. revert it store store' rows rows'.
  induction fuel as [|fuel IH]; intros it store store' rows rows' Hrows;
    cbn [backfillLoop]; [done|].
  destruct it as [|k rest]; [done|]. cbv zeta.
  destruct (negb (HasPrefix (DecodeKey k) prefix)); [done|].
  destruct (DecodeHandleFromRowKey (DecodeKey k)) as [handle| |]; [|done..].
  destruct (RunInNewTxn kf store true _ _) as [[err store1] ops].
  destruct (RunInNewTxn kf' store' true _ _) as [[err' store1'] ops'].
  rewrite <- (NextUntil_ext kf kf') by done.
  assert (Hrows1 : rt_handle <$> rows ++ [mkRowTxn handle err ops]
                   = rt_handle <$> rows' ++ [mkRowTxn handle err' ops'])
    by (rewrite !fmap_app; simpl; by rewrite Hrows).
  destruct (NextUntil kf (k :: rest) _) as [it' e'].
  destruct (ErrorEqual e' ErrNotExist); [done|].
  destruct e'; [done|]. by apply IH.
Qed.

(** X17: what [backfillColumn] returns does not depend on how the per-row
    transactions fared.  The answer of [kv.RunInNewTxn] is overwritten by the
    answer of [kv.NextUntil]: two runs that agree on the snapshot and on the
    errors of [GetSnapshot], [GetTxn], the iterator and the final [Commit]
    return the same error and visit the same rows, whatever the live stores
    hold and whichever [Get], [LockKeys], [SetColValue] or per-row commit
    fails. *)
Theorem backfillColumn_ignores_row_errors (kf kf' : KvFaults)
    (store store' : Store) (t : Table) (columnInfo : ColumnInfo) (version : N) :
  kf_GetSnapshot kf = kf_GetSnapshot kf' ->
  kf_GetTxn kf = kf_GetTxn kf' ->
  (forall k, kf_Next kf k = kf_Next kf' k) ->
  kf_Commit kf = kf_Commit kf' ->
  st_snapshot store version = st_snapshot store' version ->
  (backfillColumn kf store t columnInfo version).1.1
  = (backfillColumn kf' store' t columnInfo version).1.1 /\
  map rt_handle (backfillColumn kf store t columnInfo version).2
  = map rt_handle (backfillColumn kf' store' t columnInfo version).2.
Proof.
  intros Hs Ht Hn Hc Hsnap. unfold backfillColumn.
  rewrite <- Hs, <- Ht, <- Hc, <- Hsnap.
  destruct (kf_GetSnapshot kf); [done|].
  destruct (kf_GetTxn kf); [done|].
  set (it := NewMvccIterator _ _).
  pose proof (backfillLoop_control kf kf' t columnInfo (KeyPrefix t)
                (S (length it)) it store store' [] [] Hn eq_refl) as [Hexit Hrows].
  destruct (backfillLoop kf _ _ _ _ _ _ _) as [[exit s1] r1].
  destruct (backfillLoop kf' _ _ _ _ _ _ _) as [[exit' s1'] r1'].
  simpl in *. subst exit'. by destruct exit.
Qed.

(** With every [LockKeys] failing, the backfill of the sample store still
    returns nil. *)
Lemma backfillColumn_ignores_row_errors_witness :
  (backfillColumn Cases.kf_lock_fails Sample.store0 Sample.tbl1 Sample.col_c 77).1.1
  = Some None /\
  (backfillColumn Cases.kf_lock_fails Sample.store0 Sample.tbl1 Sample.col_c 77).2
  = [mkRowTxn 7 (Some "lock conflict") [OpGet [1; 7]; OpGet [1; 7; 3];
                                        OpLockKeys [1; 7]]].
Proof.
  split; [|vm_compute; reflexivity].
  rewrite (proj1 (backfillColumn_ignores_row_errors Cases.kf_lock_fails
                    Sample.kf_ok Sample.store0 Sample.store0 Sample.tbl1
                    Sample.col_c 77 eq_refl eq_refl (fun _ => eq_refl) eq_refl
                    eq_refl)).
  vm_compute. reflexivity.
Defined.

(** ** backfillColumn: what a scan without store errors achieves *)

Lemma HasPrefix_row (t : Table) (k : Key) (handle : Z) :
  HasPrefix k (RecordKey t handle None) = true ->
  HasPrefix k (KeyPrefix t) = true /\ DecodeHandleFromRowKey k = Val handle.
Proof.
  unfold RecordKey, KeyPrefix, DecodeHandleFromRowKey.
  destruct k as [|x [|h rest]]; simpl; try discriminate.
  - by rewrite andb_false_r.
  - intros H. apply andb_true_iff in H as [Hx H].
    apply andb_true_iff in H as [Hh _]. apply Z.eqb_eq in Hh as ->.
    by rewrite Hx.
Qed.

Lemma NextUntil_no_fault (kf : KvFaults) (it : list Key) (fn : Key -> bool) :
  (forall k, kf_Next kf k = None) -> (NextUntil kf it fn).2 = None.
Proof.
  intros Hn. induction it as [|k rest IH]; simpl; [done|].
  destruct (fn k); [done|]. by rewrite Hn.
Qed.

(** A key of the table's run is in the row just visited or still ahead. *)
Lemma tableRun_NextUntil (kf : KvFaults) (t : Table) (handle : Z) (it : list Key)
    (k : Key) :
  (forall k, kf_Next kf k = None) ->
  k ∈ tableRun (KeyPrefix t) it ->
  HasPrefix k (RecordKey t handle None) = true \/
  k ∈ tableRun (KeyPrefix t)
        (NextUntil kf it (RowKeyPrefixFilter (RecordKey t handle None))).1.
Proof.
  intros Hn. remember (RecordKey t handle None) as lock eqn:Hlock.
  induction it as [|k0 rest IH]; cbn [tableRun NextUntil];
    [by intros ?%elem_of_nil|].
  destruct (HasPrefix k0 (KeyPrefix t)) eqn:Hpre; [|by intros ?%elem_of_nil].
  unfold RowKeyPrefixFilter at 1.
  destruct (HasPrefix k0 lock) eqn:Hrow; cbn [negb].
  - rewrite Hn. intros [->|Hin]%elem_of_cons; [by left|by apply IH].
  - intros Hin. right. cbn [fst tableRun]. by rewrite Hpre.
Qed.

Lemma tableRun_NextUntil_sub (kf : KvFaults) (t : Table) (handle : Z)
    (it : list Key) (k : Key) :
  k ∈ tableRun (KeyPrefix t)
        (NextUntil kf it (RowKeyPrefixFilter (RecordKey t handle None))).1 ->
  k ∈ tableRun (KeyPrefix t) it.
Proof.
  induction it as [|k0 rest IH]; cbn [tableRun NextUntil]; [done|].
  unfold RowKeyPrefixFilter at 1.
  destruct (HasPrefix k0 (RecordKey t handle None)) eqn:Hrow; cbn [negb fst];
    [|done].
  destruct (HasPrefix_row t k0 handle Hrow) as [-> _].
  destruct (kf_Next kf k0); cbn [fst tableRun]; [by intros ?%elem_of_nil|].
  intros Hin. apply list_elem_of_further. by apply IH.
Qed.

Lemma RunInNewTxn_no_fault (kf : KvFaults) (store : Store) (t : Table)
    (columnInfo : ColumnInfo) (handle : Z) :
  no_faults kf ->
  is_Some (st_live store !! RecordKey t handle None) ->
  st_live (RunInNewTxn kf store true (RecordKey t handle None)
             (backfillRow kf t columnInfo handle (RecordKey t handle None))).1.2
  = <[RecordKey t handle (Some columnInfo) := c_DefaultValue columnInfo]>
      (st_live store).
Proof.
  intros (_ & _ & Hg & Hl & Hs & Hc & _ & _) [v0 Hrow]. unfold RunInNewTxn.
  rewrite (backfillRow_sets_in_every_existing_row kf t columnInfo store handle v0)
    by done.
  rewrite Hc. simpl. by rewrite insert_union_singleton_l.
Qed.

Lemma scan_frame_keeps (t : Table) (columnInfo : ColumnInfo) (store store' : Store)
    (rows rows' : list RowTxn) (bound : nat) (handle : Z) :
  scan_frame t columnInfo store rows bound store' rows' ->
  st_live store !! RecordKey t handle (Some columnInfo)
  = Some (c_DefaultValue columnInfo) ->
  st_live store' !! RecordKey t handle (Some columnInfo)
  = Some (c_DefaultValue columnInfo).
Proof.
  intros (_ & new & _ & _ & _ & Hk) Hcell.
  destruct (Hk (RecordKey t handle (Some columnInfo))) as [->|(_ & _ & _ & ->)];
    done.
Qed.

(** Without store errors, and with every key of the table's run a row key,
    the loop runs to its end and leaves the default value in the column cell
    of every row of the run that the live store holds. *)
Lemma backfillLoop_no_fault (kf : KvFaults) (t : Table) (columnInfo : ColumnInfo)
    (fuel : nat) (it : list Key) (store : Store) (rows : list RowTxn) :
  no_faults kf ->
  (forall k, k ∈ tableRun (KeyPrefix t) it ->
             exists h, DecodeHandleFromRowKey k = Val h) ->
  (length it < fuel)%nat ->
  (backfillLoop kf t columnInfo (KeyPrefix t) fuel it store rows).1.1 = LoopEnd /\
  forall k h,
    k ∈ tableRun (KeyPrefix t) it ->
    DecodeHandleFromRowKey k = Val h ->
    is_Some (st_live store !! RecordKey t h None) ->
    st_live (backfillLoop kf t columnInfo (KeyPrefix t) fuel it store rows).1.2
      !! RecordKey t h (Some columnInfo)
    = Some (c_DefaultValue columnInfo).
Proof.
  intros Hkf. pose proof Hkf as (_ & _ & _ & _ & _ & _ & Hnext & _).
  revert it store rows.
  induction fuel as [|fuel IH]; intros it store rows Hdec Hlen; [lia|].
  destruct it as [|k0 rest].
  { split; [done|]. by intros k h ?%elem_of_nil. }
  cbn [backfillLoop tableRun] in *. unfold DecodeKey, EncodeKey.
  destruct (HasPrefix k0 (KeyPrefix t)) eqn:Hpre; cbn [negb];
    [|split; [done|]; by intros k h ?%elem_of_nil].
  destruct (Hdec k0 (list_elem_of_here _ _)) as [h0 Hh0]. rewrite Hh0.
  pose proof (RunInNewTxn_backfillRow kf store t columnInfo h0)
    as (_ & _ & Hlive).
  pose proof (RunInNewTxn_no_fault kf store t columnInfo h0 Hkf) as Hfill.
  cbv zeta in Hlive.
  destruct (RunInNewTxn kf store true _ _) as [[err store1] ops].
  cbn [fst snd] in *.
  pose proof (NextUntil_skips kf k0 rest
                (RowKeyPrefixFilter (RecordKey t h0 None))
                (RowKeyPrefixFilter_own_row t k0 h0 Hpre Hh0)) as Hskip.
  pose proof (NextUntil_no_fault kf (k0 :: rest)
                (RowKeyPrefixFilter (RecordKey t h0 None)) Hnext) as Herr.
  pose proof (fun k => tableRun_NextUntil kf t h0 (k0 :: rest) k Hnext) as Hahead.
  pose proof (fun k => tableRun_NextUntil_sub kf t h0 (k0 :: rest) k) as Hback.
  cbn [tableRun] in Hahead, Hback. rewrite Hpre in Hahead, Hback.
  destruct (NextUntil kf (k0 :: rest) _) as [it' err'].
  cbn [fst snd] in *. subst err'.
  change (ErrorEqual None ErrNotExist) with false. cbv iota.
  assert (Hkeep : forall key, is_Some (st_live store !! key) ->
                              is_Some (st_live store1 !! key)).
  { intros key Hkey. destruct Hlive as [->|(_ & _ & -> & _)]; [done|].
    apply lookup_insert_is_Some'. by right. }
  destruct (IH it' store1 (rows ++ [mkRowTxn h0 err ops])) as [Hend Hcells].
  { intros k Hk. apply Hdec, Hback, Hk. }
  { cbn [length] in Hlen. lia. }
  split; [done|].
  intros k h Hk Hh Hrow.
  destruct (Hahead k Hk) as [Hown|Hin].
  - destruct (HasPrefix_row t k h0 Hown) as [_ Hh']. rewrite Hh in Hh'.
    injection Hh' as ->.
    eapply scan_frame_keeps; [apply backfillLoop_frame|].
    rewrite (Hfill Hrow). apply lookup_insert_eq.
  - apply (Hcells k h Hin Hh). by apply Hkeep.
Qed.

(** X18: what a backfill without store errors achieves.  If every key the
    scan reaches (the keys of the snapshot from the table's first key on,
    while they lie under the table's prefix) is a row key, [backfillColumn]
    returns nil and every row among them that the live store still holds ends
    with the default value in its cell of the new column. *)
Theorem backfillColumn_fills_existing_rows (kf : KvFaults) (store : Store)
    (t : Table) (columnInfo : ColumnInfo) (version : N) :
  let it := NewMvccIterator (st_snapshot store version) (EncodeKey (FirstKey t)) in
  no_faults kf ->
  (forall k, k ∈ tableRun (KeyPrefix t) it ->
             exists h, DecodeHandleFromRowKey k = Val h) ->
  (backfillColumn kf store t columnInfo version).1.1 = Some None /\
  forall k h,
    k ∈ tableRun (KeyPrefix t) it ->
    DecodeHandleFromRowKey k = Val h ->
    is_Some (st_live store !! RecordKey t h None) ->
    st_live (backfillColumn kf store t columnInfo version).1.2
      !! RecordKey t h (Some columnInfo)
    = Some (c_DefaultValue columnInfo).
Proof.
  intros it Hkf Hdec. pose proof Hkf as (Hs & Ht & _ & _ & _ & _ & _ & Hc).
  unfold backfillColumn. rewrite Hs, Ht, Hc. cbv zeta. fold it.
  destruct (backfillLoop_no_fault kf t columnInfo (S (length it)) it store []
              Hkf Hdec (Nat.lt_succ_diag_r _)) as [Hend Hcells].
  destruct (backfillLoop kf t columnInfo (KeyPrefix t) (S (length it)) it store [])
    as [[exit store'] rows]. cbn [fst snd] in *. subst exit.
  split; [done|]. exact Hcells.
Qed.

Lemma Sample_kf_ok_no_faults : no_faults Sample.kf_ok.
Proof. by repeat split. Qed.

(** Row 7 of the sample store gets the default 5 in the cell of column 3. *)
Lemma backfillColumn_fills_existing_rows_witness :
  (backfillColumn Sample.kf_ok Sample.store0 Sample.tbl1 Sample.col_c 77).1.1
  = Some None /\
  st_live (backfillColumn Sample.kf_ok Sample.store0 Sample.tbl1 Sample.col_c 77).1.2
    !! [1; 7; 3] = Some 5.
Proof.
  assert (Hdec : forall k,
            k ∈ tableRun (KeyPrefix Sample.tbl1)
                  (NewMvccIterator (st_snapshot Sample.store0 77)
                     (EncodeKey (FirstKey Sample.tbl1))) ->
            exists h, DecodeHandleFromRowKey k = Val h).
  { intros k Hk.
    change (k ∈ [[1; 7]; [1; 7; 1]; [1; 7; 2]]) in Hk.
    repeat (apply elem_of_cons in Hk as [->|Hk]; [by eexists|]).
    by apply elem_of_nil in Hk. }
  destruct (backfillColumn_fills_existing_rows Sample.kf_ok Sample.store0
              Sample.tbl1 Sample.col_c 77 Sample_kf_ok_no_faults Hdec)
    as [Hnil Hcells].
  split; [exact Hnil|].
  apply (Hcells [1; 7] 7); [apply list_elem_of_here|reflexivity|].
  by eexists.
Defined.
